(** * VoiceesGem dashboard: call lifecycle and session clock

    A shallow embedding of the two stateful React components of the
    dashboard:

    - [Home] (dashboard/src/app/page.tsx): the call-lifecycle controller
      with its [startCall], [endCall] and [toggleMute] callbacks, the event
      handlers registered on each client and the fallback connection poll;
    - [CostTracker] (components/CostTracker.tsx): the session clock.

    JavaScript runs both on one event loop.  Each callback therefore runs
    to completion, and an [async] function is cut at its [await]s: the part
    after an [await] is a continuation stored in the state until the awaited
    promise settles. *)

From Stdlib Require Import ZArith String List Bool Lia QArith Qcanon.
From Stdlib Require Import Ascii Qround DecimalString.
From stdpp Require Import base list.
Import ListNotations.

Local Open Scope Z_scope.
Local Open Scope nat_scope.

(* ===================================================================== *)
(** ** The controller: page.tsx *)
(* ===================================================================== *)

Module Controller.

(** [useState<"idle" | "connecting" | "active" | "error">]. *)
Inductive Status : Type := idle | connecting | active | error.

Definition Status_eqb (a b : Status) : bool :=
  match a, b with
  | idle, idle | connecting, connecting | active, active | error, error => true
  | _, _ => false
  end.

(** One [PipecatClient] created by [startCall], together with the variables
    of the closure the callbacks of that call share. *)
Record Client : Type := mkClient {
  connected : bool;          (* client.connected, owned by the transport *)
  connectionHandled : bool;  (* let connectionHandled = false *)
  pollAttempts : nat;        (* let pollAttempts = 0 *)
  connectionPoll : bool      (* the interval is installed and not cleared *)
}.

(** What the component does to the outside, in program order: the calls on
    a client, each execution of an activation block
    ([setStatus("active"); setStartTime(Date.now())]), each run of the poll
    callback (its [console.log]), and a rejected [endCall] promise. *)
Inductive Effect : Type :=
| EDisconnect (id : nat)
| EConnect (id : nat)
| EEnableMic (id : nat) (enable : bool)
| EActivate (id : nat) (now : Z)
| EPoll (id : nat) (attempt : nat)
| ERejected.

(** A suspended [async] callback. *)
Inductive Await : Type :=
| StartAwaitsDisconnect (old : nat)  (* page.tsx:26 *)
| StartAwaitsConnect (id : nat)      (* page.tsx:103 *)
| EndAwaitsDisconnect (id : nat).    (* page.tsx:151 *)

Record Home : Type := mkHome {
  status : Status;
  startTime : option Z;
  isMuted : bool;
  clientRef : option nat;     (* clientRef.current, an index into clients *)
  clients : list Client;      (* every client created so far *)
  awaits : list Await;        (* suspended callbacks, oldest first *)
  effects : list Effect       (* oldest first *)
}.

Definition init : Home :=
  {| status := idle; startTime := None; isMuted := false; clientRef := None;
     clients := []; awaits := []; effects := [] |}.

Definition maxPollAttempts : nat := 10.

(** *** State updates *)

Definition setStatus (v : Status) (s : Home) : Home :=
  {| status := v; startTime := startTime s; isMuted := isMuted s;
     clientRef := clientRef s; clients := clients s; awaits := awaits s;
     effects := effects s |}.

Definition setStartTime (v : option Z) (s : Home) : Home :=
  {| status := status s; startTime := v; isMuted := isMuted s;
     clientRef := clientRef s; clients := clients s; awaits := awaits s;
     effects := effects s |}.

Definition setIsMuted (v : bool) (s : Home) : Home :=
  {| status := status s; startTime := startTime s; isMuted := v;
     clientRef := clientRef s; clients := clients s; awaits := awaits s;
     effects := effects s |}.

Definition setClientRef (v : option nat) (s : Home) : Home :=
  {| status := status s; startTime := startTime s; isMuted := isMuted s;
     clientRef := v; clients := clients s; awaits := awaits s;
     effects := effects s |}.

Definition setClients (v : list Client) (s : Home) : Home :=
  {| status := status s; startTime := startTime s; isMuted := isMuted s;
     clientRef := clientRef s; clients := v; awaits := awaits s;
     effects := effects s |}.

Definition setAwaits (v : list Await) (s : Home) : Home :=
  {| status := status s; startTime := startTime s; isMuted := isMuted s;
     clientRef := clientRef s; clients := clients s; awaits := v;
     effects := effects s |}.

Definition emit (e : Effect) (s : Home) : Home :=
  {| status := status s; startTime := startTime s; isMuted := isMuted s;
     clientRef := clientRef s; clients := clients s; awaits := awaits s;
     effects := effects s ++ [e] |}.

Definition suspend (a : Await) (s : Home) : Home :=
  setAwaits (awaits s ++ [a]) s.

Definition setClient (id : nat) (c : Client) (s : Home) : Home :=
  setClients (<[id := c]> (clients s)) s.

Definition withConnected (v : bool) (c : Client) : Client :=
  {| connected := v; connectionHandled := connectionHandled c;
     pollAttempts := pollAttempts c; connectionPoll := connectionPoll c |}.

Definition withHandled (v : bool) (c : Client) : Client :=
  {| connected := connected c; connectionHandled := v;
     pollAttempts := pollAttempts c; connectionPoll := connectionPoll c |}.

Definition withAttempts (v : nat) (c : Client) : Client :=
  {| connected := connected c; connectionHandled := connectionHandled c;
     pollAttempts := v; connectionPoll := connectionPoll c |}.

Definition withPoll (v : bool) (c : Client) : Client :=
  {| connected := connected c; connectionHandled := connectionHandled c;
     pollAttempts := pollAttempts c; connectionPoll := v |}.

(** *** The activation block

    [connectionHandled = true; setStatus("active"); setStartTime(Date.now())],
    written out four times in the source (lines 46-48, 55-57, 125-127 and
    134-136); [c] is the client as the caller left it. *)
Definition activate (id : nat) (now : Z) (c : Client) (s : Home) : Home :=
  emit (EActivate id now)
    (setStartTime (Some now)
       (setStatus active
          (setClient id (withHandled true c) s))).

(** *** Event handlers registered on the client (page.tsx:40-71) *)

Definition activating (state : string) : bool :=
  (String.eqb state "connected" || String.eqb state "ready")%bool.

Definition onTransportStateChanged (id : nat) (state : string) (now : Z)
    (s : Home) : Home :=
  match clients s !! id with
  | Some c =>
      if (activating state && negb (connectionHandled c))%bool
      then activate id now c s
      else s
  | None => s
  end.

Definition onConnected (id : nat) (now : Z) (s : Home) : Home :=
  match clients s !! id with
  | Some c =>
      if negb (connectionHandled c) then activate id now c s else s
  | None => s
  end.

Definition onDisconnected (id : nat) (s : Home) : Home :=
  match clients s !! id with
  | Some c =>
      setStartTime None
        (setStatus idle
           (setClient id (withHandled false c) s))
  | None => s
  end.

Definition onError (id : nat) (s : Home) : Home :=
  match clients s !! id with
  | Some _ => setStatus error s
  | None => s
  end.

(** *** The fallback poll (page.tsx:115-139)

    One run of the interval callback.  A cleared interval does not fire. *)
Definition connectionPollTick (id : nat) (now : Z) (s : Home) : Home :=
  match clients s !! id with
  | Some c =>
      if connectionPoll c then
        let c1 := withAttempts (S (pollAttempts c)) c in   (* pollAttempts++ *)
        let isConnected := connected c1 in
        let s1 := emit (EPoll id (pollAttempts c1)) (setClient id c1 s) in
        if (isConnected && negb (connectionHandled c1))%bool then
          activate id now (withPoll false c1) s1
        else if maxPollAttempts <=? pollAttempts c1 then
          let c2 := withPoll false c1 in                   (* clearInterval *)
          if connected c2
          then activate id now c2 s1
          else setClient id c2 s1
        else s1
      else s
  | None => s
  end.

(** *** startCall (page.tsx:19-147) *)

(** Lines 30-107: build the client, register the handlers and call
    [client.connect]; the callback then waits for the connect promise. *)
Definition startCall_connect (s : Home) : Home :=
  let id := length (clients s) in
  suspend (StartAwaitsConnect id)
    (emit (EConnect id)
       (setClients (clients s ++ [mkClient false false 0 false]) s)).

(** Lines 20-27. *)
Definition startCall (s : Home) : Home :=
  let s1 := setStatus connecting s in
  match clientRef s1 with
  | Some old => suspend (StartAwaitsDisconnect old) (emit (EDisconnect old) s1)
  | None => startCall_connect s1
  end.

(** Lines 109-142, after [await client.connect] returned. *)
Definition startCall_connected (id : nat) (s : Home) : Home :=
  match clients s !! id with
  | Some c =>
      setClientRef (Some id)
        (setClient id (withPoll true (withAttempts 0 c)) s)
  | None => s
  end.

(** Lines 143-146, the [catch] around the whole body. *)
Definition startCall_catch (s : Home) : Home := setStatus error s.

(** *** endCall (page.tsx:149-156) *)

Definition endCall_reset (s : Home) : Home :=
  setStartTime None (setStatus idle s).

Definition endCall (s : Home) : Home :=
  match clientRef s with
  | Some id => suspend (EndAwaitsDisconnect id) (emit (EDisconnect id) s)
  | None => endCall_reset s
  end.

(** *** Resuming a suspended callback

    [ok] tells whether the awaited promise was fulfilled or rejected.
    [startCall] catches a rejection; [endCall] has no handler, so its own
    promise is rejected and the rest of its body is skipped. *)
Definition resume (a : Await) (ok : bool) (s : Home) : Home :=
  match a with
  | StartAwaitsDisconnect _ =>
      if ok then startCall_connect s else startCall_catch s
  | StartAwaitsConnect id =>
      if ok then startCall_connected id s else startCall_catch s
  | EndAwaitsDisconnect _ =>
      if ok then endCall_reset (setClientRef None s) else emit ERejected s
  end.

Definition settle (k : nat) (ok : bool) (s : Home) : Home :=
  match awaits s !! k with
  | Some a => resume a ok (setAwaits (delete k (awaits s)) s)
  | None => s
  end.

(** *** toggleMute (page.tsx:158-164) *)

Definition toggleMute (s : Home) : Home :=
  match clientRef s with
  | Some id =>
      let newMute := negb (isMuted s) in
      setIsMuted newMute (emit (EEnableMic id (negb newMute)) s)
  | None => s
  end.

(** *** The transport

    The [connected] property belongs to the client; the transport changes
    it on its own. *)
Definition transportSets (id : nat) (v : bool) (s : Home) : Home :=
  match clients s !! id with
  | Some c => setClient id (withConnected v c) s
  | None => s
  end.

(** *** The event loop *)

Inductive Event : Type :=
| EvStartCall
| EvEndCall
| EvToggleMute
| EvSettle (k : nat) (ok : bool)
| EvTransportStateChanged (id : nat) (state : string) (now : Z)
| EvConnected (id : nat) (now : Z)
| EvDisconnected (id : nat)
| EvError (id : nat)
| EvPoll (id : nat) (now : Z)
| EvTransport (id : nat) (isConnected : bool).

Definition step (s : Home) (e : Event) : Home :=
  match e with
  | EvStartCall => startCall s
  | EvEndCall => endCall s
  | EvToggleMute => toggleMute s
  | EvSettle k ok => settle k ok s
  | EvTransportStateChanged id state now => onTransportStateChanged id state now s
  | EvConnected id now => onConnected id now s
  | EvDisconnected id => onDisconnected id s
  | EvError id => onError id s
  | EvPoll id now => connectionPollTick id now s
  | EvTransport id v => transportSets id v s
  end.

Definition run (s : Home) (es : list Event) : Home := fold_left step es s.

Inductive reachable : Home -> Prop :=
| reachable_init : reachable init
| reachable_step s e : reachable s -> reachable (step s e).

(** The activation blocks executed so far, with the time each captured. *)
Definition activations (s : Home) : list Z :=
  omap (fun e => match e with EActivate _ now => Some now | _ => None end)
       (effects s).

Definition isPollOf (id : nat) (e : Effect) : bool :=
  match e with
  | EPoll i _ => Nat.eqb i id
  | _ => false
  end.

(** The runs of the poll callback of client [id] so far. *)
Definition pollRuns (id : nat) (s : Home) : nat :=
  length (List.filter (isPollOf id) (effects s)).

Definition awaitsConnectOf (id : nat) (a : Await) : bool :=
  match a with
  | StartAwaitsConnect i => Nat.eqb i id
  | _ => false
  end.

(** The suspended [startCall]s that wait for [connect] of client [id]. *)
Definition pendingConnects (id : nat) (s : Home) : nat :=
  length (List.filter (awaitsConnectOf id) (awaits s)).

(** What holds of the poll of client [id] in every reachable state: the
    counter [pollAttempts] counts the runs of the callback, it never
    exceeds the budget, a live interval is strictly below it, and the
    interval is installed at most once, when the one [startCall] that
    created the client resumes. *)
Definition pollInvariant (id : nat) (s : Home) : Prop :=
  match clients s !! id with
  | Some c =>
      pollRuns id s = pollAttempts c /\
      pollAttempts c <= maxPollAttempts /\
      pendingConnects id s <= 1 /\
      (connectionPoll c = true ->
         pollAttempts c < maxPollAttempts /\ pendingConnects id s = 0) /\
      (pendingConnects id s = 1 ->
         pollAttempts c = 0 /\ connectionPoll c = false)
  | None => pollRuns id s = 0 /\ pendingConnects id s = 0
  end.

(** How the start time follows the status in every reachable state. *)
Definition startTimeInvariant (s : Home) : Prop :=
  match status s with
  | active => startTime s <> None
  | idle => startTime s = None
  | connecting | error => True
  end.

(** The event is a run of the poll callback of client [id]. *)
Definition isPollOfClient (id : nat) (e : Event) : bool :=
  match e with
  | EvPoll i _ => Nat.eqb i id
  | _ => false
  end.

(** An event that carries no positive signal for client [id]: a run of its
    poll, or a transport state other than "connected" and "ready". *)
Definition quiet (id : nat) (e : Event) : bool :=
  match e with
  | EvPoll i _ => Nat.eqb i id
  | EvTransportStateChanged _ state _ => negb (activating state)
  | _ => false
  end.

End Controller.

(* ===================================================================== *)
(** ** The session clock: components/CostTracker.tsx *)
(* ===================================================================== *)

Module Clock.

Local Open Scope Qc_scope.

(** [const COST_PER_SECOND = 0.0005].  Times are the integer milliseconds
    of [Date.now()]; durations and costs are exact rationals. *)
Definition COST_PER_SECOND : Qc := Q2Qc (5 # 10000).

(** The props [{ isActive, startTime }]. *)
Definition Props : Type := (bool * option Z)%type.

Record CostTracker : Type := mkCostTracker {
  cost : Qc;                    (* useState(0) *)
  duration : Qc;                (* useState(0) *)
  timerRef : option nat;        (* timerRef.current, an interval handle *)
  intervals : list (nat * Z);   (* live intervals: handle and the startTime
                                   their callback closed over *)
  nextHandle : nat;             (* the handle setInterval returns next *)
  deps : option Props           (* [isActive, startTime] of the last run of
                                   the effect; None before the first *)
}.

Definition mount : CostTracker :=
  {| cost := 0; duration := 0; timerRef := None; intervals := [];
     nextHandle := 1; deps := None |}.

(** JavaScript truthiness of [startTime : number | null]. *)
Definition truthy (startTime : option Z) : bool :=
  match startTime with
  | Some t => negb (Z.eqb t 0)
  | None => false
  end.

Definition Props_eqb (p q : Props) : bool :=
  (Bool.eqb (fst p) (fst q) &&
   match snd p, snd q with
   | Some a, Some b => Z.eqb a b
   | None, None => true
   | _, _ => false
   end)%bool.

Definition clearInterval (h : nat) (ct : CostTracker) : CostTracker :=
  {| cost := cost ct; duration := duration ct; timerRef := timerRef ct;
     intervals := List.filter (fun p => negb (Nat.eqb (fst p) h)) (intervals ct);
     nextHandle := nextHandle ct; deps := deps ct |}.

(** [if (timerRef.current) clearInterval(timerRef.current)]: lines 39 and
    43.  An interval handle is never falsy. *)
Definition clearTimer (ct : CostTracker) : CostTracker :=
  match timerRef ct with
  | Some h => clearInterval h ct
  | None => ct
  end.

(** [timerRef.current = setInterval(callback, 100)], with the [startTime]
    the callback reads. *)
Definition setInterval (startTime : Z) (ct : CostTracker) : CostTracker :=
  {| cost := cost ct; duration := duration ct;
     timerRef := Some (nextHandle ct);
     intervals := intervals ct ++ [(nextHandle ct, startTime)];
     nextHandle := S (nextHandle ct); deps := deps ct |}.

(** The body of the effect, lines 31-40. *)
Definition effect (p : Props) (ct : CostTracker) : CostTracker :=
  match snd p with
  | Some t =>
      if (fst p && truthy (Some t))%bool then setInterval t ct
      else clearTimer ct
  | None => clearTimer ct
  end.

(** The function the effect returns, lines 42-44. *)
Definition cleanup (ct : CostTracker) : CostTracker := clearTimer ct.

Definition setDeps (p : Props) (ct : CostTracker) : CostTracker :=
  {| cost := cost ct; duration := duration ct; timerRef := timerRef ct;
     intervals := intervals ct; nextHandle := nextHandle ct;
     deps := Some p |}.

(** A render with props [p].  [useEffect(..., [isActive, startTime])] runs
    the effect after the first render, and after a later one only when a
    dependency changed, the previous cleanup first. *)
Definition render (p : Props) (ct : CostTracker) : CostTracker :=
  match deps ct with
  | None => setDeps p (effect p ct)
  | Some q =>
      if Props_eqb p q then ct
      else setDeps p (effect p (cleanup ct))
  end.

(** Leaving the page runs the last cleanup. *)
Definition unmount (ct : CostTracker) : CostTracker := cleanup ct.

Definition elapsedSeconds (now startTime : Z) : Qc :=
  Qc_of_Z (now - startTime) / Qc_of_Z 1000.

(** The interval callback, lines 33-36. *)
Definition sample (now startTime : Z) (ct : CostTracker) : CostTracker :=
  let diff := elapsedSeconds now startTime in
  {| cost := diff * COST_PER_SECOND; duration := diff;
     timerRef := timerRef ct; intervals := intervals ct;
     nextHandle := nextHandle ct; deps := deps ct |}.

Fixpoint closedOver (h : nat) (l : list (nat * Z)) : option Z :=
  match l with
  | [] => None
  | (h', t) :: l' => if Nat.eqb h' h then Some t else closedOver h l'
  end.

(** The timer of handle [h] fires at time [now]; a cleared interval does
    not fire. *)
Definition tick (h : nat) (now : Z) (ct : CostTracker) : CostTracker :=
  match closedOver h (intervals ct) with
  | Some t => sample now t ct
  | None => ct
  end.

Inductive Event : Type :=
| EvRender (p : Props)
| EvTick (h : nat) (now : Z).

Definition step (ct : CostTracker) (e : Event) : CostTracker :=
  match e with
  | EvRender p => render p ct
  | EvTick h now => tick h now ct
  end.

Definition run (ct : CostTracker) (es : list Event) : CostTracker :=
  fold_left step es ct.

Inductive reachable : CostTracker -> Prop :=
| reachable_mount : reachable mount
| reachable_step ct e : reachable ct -> reachable (step ct e).


(** What holds of the timers in every reachable state: an interval is live
    exactly when the last run of the effect saw [isActive && startTime];
    it is then the only one, [timerRef] holds its handle and its callback
    closed over that [startTime]. *)
Definition clockInvariant (ct : CostTracker) : Prop :=
  match deps ct with
  | Some p =>
      if (fst p && truthy (snd p))%bool
      then exists h t, snd p = Some t /\ intervals ct = [(h, t)] /\
                       timerRef ct = Some h
      else intervals ct = []
  | None => intervals ct = []
  end.

(** The props [Home] passes down:
    [<CostTracker isActive={status === "active"} startTime={startTime} />]. *)
Definition propsOf (s : Controller.Home) : Props :=
  (Controller.Status_eqb (Controller.status s) Controller.active,
   Controller.startTime s).

End Clock.

(* ===================================================================== *)
(** ** Reading the effect trace *)
(* ===================================================================== *)

Module Trace.

Import Controller.

(** The client a recorded call or log line is about. *)
Definition effectClient (e : Effect) : option nat :=
  match e with
  | EDisconnect id | EConnect id | EEnableMic id _ | EActivate id _
  | EPoll id _ => Some id
  | ERejected => None
  end.

Definition addressedTo (id : nat) (e : Effect) : bool :=
  match effectClient e with
  | Some i => Nat.eqb i id
  | None => false
  end.

Definition isConnect (e : Effect) : bool :=
  match e with
  | EConnect _ => true
  | _ => false
  end.

(** Everything recorded about client [id], oldest first. *)
Definition callsOn (id : nat) (s : Home) : list Effect :=
  List.filter (addressedTo id) (effects s).

(** The arguments of the [enableMic] calls so far, on whichever client. *)
Definition micCalls (s : Home) : list bool :=
  omap (fun e => match e with EEnableMic _ b => Some b | _ => None end)
       (effects s).

(** Nothing is recorded about a client before it is built, and the record
    of a built client starts with its one [connect]. *)
Definition callsInvariant (s : Home) : Prop :=
  forall id,
    match callsOn id s with
    | [] => length (clients s) <= id
    | e :: l =>
        id < length (clients s) /\ e = EConnect id /\
        forallb (fun x => negb (isConnect x)) l = true
    end.

(** [clientRef.current] holds a client that was built and whose [connect]
    has returned. *)
Definition handleInvariant (s : Home) : Prop :=
  forall id, clientRef s = Some id ->
    id < length (clients s) /\ pendingConnects id s = 0.

(** [isMuted] is the negation of the value last passed to [enableMic]. *)
Definition muteInvariant (s : Home) : Prop :=
  isMuted s = match last (micCalls s) with
              | Some b => negb b
              | None => false
              end.

(** A start time that is set is the one the latest activation captured. *)
Definition lastActivationInvariant (s : Home) : Prop :=
  match startTime s with
  | Some t => last (activations s) = Some t
  | None => True
  end.

End Trace.

(* ===================================================================== *)
(** ** The page: buttons, controller and clock together *)
(* ===================================================================== *)

Module Page.

Import Controller.

(** The main button (page.tsx:259-261):
    [onClick={status === "active" ? endCall : startCall}],
    [disabled={status === "connecting"}]. *)
Definition clickMain (s : Home) : Home :=
  match status s with
  | connecting => s
  | active => endCall s
  | idle | error => startCall s
  end.

(** The mute button (page.tsx:246-248) is rendered only while
    [status === "active"]; its [onClick] is [toggleMute]. *)
Definition clickMute (s : Home) : Home :=
  match status s with
  | active => toggleMute s
  | idle | connecting | error => s
  end.

(** What reaches the callbacks of [Home] from outside the page: settled
    promises, client events, timer firings and the transport.  The three
    callbacks [startCall], [endCall], [toggleMute] are reached through the
    buttons only. *)
Definition fromOutside (e : Controller.Event) : bool :=
  match e with
  | EvStartCall | EvEndCall | EvToggleMute => false
  | _ => true
  end.

Record Page : Type := mkPage {
  home : Home;
  tracker : Clock.CostTracker
}.

(** [Home] renders [<CostTracker isActive={status === "active"}
    startTime={startTime} />] (page.tsx:242); the state updates of one
    callback are rendered together. *)
Definition rerender (s : Home) (ct : Clock.CostTracker) : Page :=
  {| home := s; tracker := Clock.render (Clock.propsOf s) ct |}.

Definition init : Page := rerender Controller.init Clock.mount.

Inductive Event : Type :=
| ClickMain
| ClickMute
| Callback (e : Controller.Event)
| ClockTick (h : nat) (now : Z).

Definition step (p : Page) (e : Event) : Page :=
  match e with
  | ClickMain => rerender (clickMain (home p)) (tracker p)
  | ClickMute => rerender (clickMute (home p)) (tracker p)
  | Callback c =>
      if fromOutside c
      then rerender (Controller.step (home p) c) (tracker p)
      else p
  | ClockTick h now =>
      {| home := home p; tracker := Clock.tick h now (tracker p) |}
  end.

Definition run (p : Page) (es : list Event) : Page := fold_left step es p.

(** An event that brings no positive signal for client [id]: a click, a
    firing of the clock, or a quiet callback. *)
Definition uneventful (id : nat) (e : Event) : bool :=
  match e with
  | ClickMain | ClickMute | ClockTick _ _ => true
  | Callback c => quiet id c
  end.

(** The calls made on clients so far: [disconnect], [connect] and
    [enableMic], without the log lines. *)
Definition transportCalls (s : Home) : list Effect :=
  List.filter (fun e => match e with
                        | EDisconnect _ | EConnect _ | EEnableMic _ _ => true
                        | _ => false
                        end) (effects s).

End Page.

(* ===================================================================== *)
(** ** What the clock displays: formatDuration *)
(* ===================================================================== *)

Module Display.

Local Open Scope Qc_scope.










End Display.

(* ===================================================================== *)
(** ** The address of the bot (page.tsx:98-106) *)
(* ===================================================================== *)

Module BotUrl.

Local Open Scope string_scope.

Definition defaultBotUrl : string := "http://localhost:7860".

(** [process.env.NEXT_PUBLIC_BOT_URL || "http://localhost:7860"]: an unset
    variable and the empty string are both falsy. *)
Definition rawBotUrl (env : option string) : string :=
  match env with
  | Some EmptyString | None => defaultBotUrl
  | Some s => s
  end.

Definition isSlash (c : ascii) : bool := Ascii.eqb c "/".

Fixpoint allSlashes (s : string) : bool :=
  match s with
  | EmptyString => true
  | String c r => isSlash c && allSlashes r
  end.

(** [s.replace(/\/+$/, '')]: the leftmost place from which a non-empty run
    of slashes reaches the end of the string is where the match starts,
    and the match is deleted. *)
Fixpoint stripTrailingSlashes (s : string) : string :=
  match s with
  | EmptyString => EmptyString
  | String c r =>
      if isSlash c && allSlashes r then EmptyString
      else String c (stripTrailingSlashes r)
  end.

Definition botUrl (env : option string) : string :=
  stripTrailingSlashes (rawBotUrl env).

(** [`${botUrl}/api/offer`]. *)
Definition endpoint (env : option string) : string :=
  botUrl env ++ "/api/offer".

Fixpoint slashes (n : nat) : string :=
  match n with
  | O => EmptyString
  | S n' => String "/" (slashes n')
  end.

Fixpoint endsWithSlash (s : string) : bool :=
  match s with
  | EmptyString => false
  | String c EmptyString => isSlash c
  | String _ r => endsWithSlash r
  end.

End BotUrl.

(* ===================================================================== *)
(** ** Facts about the controller *)
(* ===================================================================== *)

Module ControllerFacts.

Import Controller.

Lemma run_cons s e es : run s (e :: es) = run (step s e) es.
Proof. reflexivity. Qed.

Lemma reachable_run s es : reachable s -> reachable (run s es).
Proof.
  revert s. induction es as [|e es IH]; intros s Hs; [exact Hs|].
  rewrite run_cons. apply IH. now constructor.
Qed.

(** *** Counting in the effect and await lists *)

Lemma length_filter_snoc {A} (f : A -> bool) (l : list A) (x : A) :
  length (List.filter f (l ++ [x])) =
  length (List.filter f l) + (if f x then 1 else 0).
Proof.
  rewrite List.filter_app, length_app. simpl. now destruct (f x).
Qed.

Lemma length_filter_delete {A} (f : A -> bool) (l : list A) (k : nat) (x : A) :
  l !! k = Some x ->
  length (List.filter f l) =
  length (List.filter f (delete k l)) + (if f x then 1 else 0).
Proof.
  revert k. induction l as [|y l IH]; intros [|k] H; try discriminate.
  - injection H as ->. simpl. destruct (f x); simpl; lia.
  - simpl in H. change (delete (S k) (y :: l)) with (y :: delete k l).
    simpl. specialize (IH k H). destruct (f y); simpl; lia.
Qed.

Lemma pollRuns_emit id e s :
  pollRuns id (emit e s) = pollRuns id s + (if isPollOf id e then 1 else 0).
Proof. apply length_filter_snoc. Qed.

Lemma pendingConnects_suspend id a s :
  pendingConnects id (suspend a s) =
  pendingConnects id s + (if awaitsConnectOf id a then 1 else 0).
Proof. apply length_filter_snoc. Qed.

(** *** The poll invariant is kept by every step *)

(** A step that leaves the clients alone. *)
Lemma pollInvariant_same s s' :
  clients s' = clients s ->
  (forall i, pollRuns i s' = pollRuns i s) ->
  (forall i, pendingConnects i s' <= pendingConnects i s) ->
  (forall i, pollInvariant i s) -> forall i, pollInvariant i s'.
Proof.
  intros Hc Hr Hp Hinv i. specialize (Hinv i). specialize (Hp i).
  unfold pollInvariant in *. rewrite Hc, Hr.
  destruct (clients s !! i) as [c|]; [|lia].
  destruct Hinv as (H1 & H2 & H3 & H4 & H5).
  split; [exact H1|]. split; [exact H2|]. split; [lia|]. split.
  - intros H. destruct (H4 H). split; [assumption|lia].
  - intros H. apply H5. lia.
Qed.

(** A step that replaces client [id] by [c']. *)
Lemma pollInvariant_update s s' id c c' :
  clients s !! id = Some c ->
  clients s' = <[id := c']> (clients s) ->
  awaits s' = awaits s ->
  (forall i, i <> id -> pollRuns i s' = pollRuns i s) ->
  pollRuns id s' = pollAttempts c' ->
  pollAttempts c' <= maxPollAttempts ->
  (connectionPoll c' = true ->
     pollAttempts c' < maxPollAttempts /\ pendingConnects id s = 0) ->
  (pendingConnects id s = 1 ->
     pollAttempts c' = 0 /\ connectionPoll c' = false) ->
  (forall i, pollInvariant i s) -> forall i, pollInvariant i s'.
Proof.
  intros Hid Hc Ha Hr Hr' Hle Hlive Hpend Hinv i.
  pose proof (Hinv i) as Hi. unfold pollInvariant in *.
  unfold pendingConnects in *. rewrite Hc, Ha.
  destruct (decide (i = id)) as [->|Hne].
  - rewrite list_lookup_insert_eq by (eapply lookup_lt_Some; eassumption).
    rewrite Hid in Hi. destruct Hi as (_ & _ & H3 & _).
    repeat split; auto; try (now apply Hlive); now apply Hpend.
  - rewrite list_lookup_insert_ne by congruence.
    rewrite Hr by assumption. exact Hi.
Qed.

Lemma pollRuns_activate i id now c s :
  pollRuns i (activate id now c s) = pollRuns i s.
Proof. unfold activate. rewrite pollRuns_emit. simpl. apply Nat.add_0_r. Qed.

Lemma pollInvariant_activate s id now c :
  clients s !! id = Some c ->
  (forall i, pollInvariant i s) ->
  forall i, pollInvariant i (activate id now c s).
Proof.
  intros Hid Hinv.
  pose proof (Hinv id) as Hi. unfold pollInvariant in Hi. rewrite Hid in Hi.
  destruct Hi as (H1 & H2 & H3 & H4 & H5).
  apply (pollInvariant_update s _ id c (withHandled true c));
    try reflexivity; try assumption.
  - intros i _. apply pollRuns_activate.
  - rewrite pollRuns_activate. exact H1.
Qed.

Lemma pollInvariant_onTransportStateChanged s id state now :
  (forall i, pollInvariant i s) ->
  forall i, pollInvariant i (onTransportStateChanged id state now s).
Proof.
  intros Hinv. unfold onTransportStateChanged.
  destruct (clients s !! id) as [c|] eqn:Hid; [|exact Hinv].
  destruct (activating state && negb (connectionHandled c))%bool; [|exact Hinv].
  now apply pollInvariant_activate.
Qed.

Lemma pollInvariant_onConnected s id now :
  (forall i, pollInvariant i s) ->
  forall i, pollInvariant i (onConnected id now s).
Proof.
  intros Hinv. unfold onConnected.
  destruct (clients s !! id) as [c|] eqn:Hid; [|exact Hinv].
  destruct (negb (connectionHandled c)); [|exact Hinv].
  now apply pollInvariant_activate.
Qed.

Lemma pollInvariant_onDisconnected s id :
  (forall i, pollInvariant i s) ->
  forall i, pollInvariant i (onDisconnected id s).
Proof.
  intros Hinv. unfold onDisconnected.
  destruct (clients s !! id) as [c|] eqn:Hid; [|exact Hinv].
  pose proof (Hinv id) as Hi. unfold pollInvariant in Hi. rewrite Hid in Hi.
  destruct Hi as (H1 & H2 & H3 & H4 & H5).
  apply (pollInvariant_update s _ id c (withHandled false c));
    try reflexivity; assumption.
Qed.

Lemma pollInvariant_onError s id :
  (forall i, pollInvariant i s) ->
  forall i, pollInvariant i (onError id s).
Proof.
  intros Hinv. unfold onError.
  destruct (clients s !! id) as [c|]; exact Hinv.
Qed.

Lemma pollInvariant_transportSets s id v :
  (forall i, pollInvariant i s) ->
  forall i, pollInvariant i (transportSets id v s).
Proof.
  intros Hinv. unfold transportSets.
  destruct (clients s !! id) as [c|] eqn:Hid; [|exact Hinv].
  pose proof (Hinv id) as Hi. unfold pollInvariant in Hi. rewrite Hid in Hi.
  destruct Hi as (H1 & H2 & H3 & H4 & H5).
  apply (pollInvariant_update s _ id c (withConnected v c));
    try reflexivity; assumption.
Qed.

Lemma pollInvariant_toggleMute s :
  (forall i, pollInvariant i s) ->
  forall i, pollInvariant i (toggleMute s).
Proof.
  intros Hinv. unfold toggleMute.
  destruct (clientRef s) as [id|]; [|exact Hinv].
  apply (pollInvariant_same s); try reflexivity; try assumption.
  - intros i. unfold setIsMuted, pollRuns. simpl.
    rewrite length_filter_snoc. simpl. apply Nat.add_0_r.
Qed.

Lemma pollInvariant_endCall s :
  (forall i, pollInvariant i s) ->
  forall i, pollInvariant i (endCall s).
Proof.
  intros Hinv. unfold endCall.
  destruct (clientRef s) as [id|]; [|exact Hinv].
  apply (pollInvariant_same s); try reflexivity; try assumption.
  - intros i. unfold pollRuns. simpl.
    rewrite length_filter_snoc. simpl. apply Nat.add_0_r.
  - intros i. rewrite pendingConnects_suspend. simpl.
    rewrite Nat.add_0_r. apply Nat.le_refl.
Qed.

Lemma pollInvariant_connectionPollTick s id now :
  (forall i, pollInvariant i s) ->
  forall i, pollInvariant i (connectionPollTick id now s).
Proof.
  intros Hinv. unfold connectionPollTick.
  destruct (clients s !! id) as [c|] eqn:Hid; [|exact Hinv].
  destruct (connectionPoll c) eqn:Hlive; [|exact Hinv].
  pose proof (Hinv id) as Hi. unfold pollInvariant in Hi. rewrite Hid in Hi.
  destruct Hi as (H1 & H2 & H3 & H4 & H5).
  destruct (H4 Hlive) as [Hlt Hpend].
  assert (Hruns : forall s0 : Home,
             effects s0 = effects s ->
             pollRuns id (emit (EPoll id (S (pollAttempts c))) s0)
             = S (pollAttempts c)).
  { intros s0 Hs0. rewrite pollRuns_emit. simpl. rewrite Nat.eqb_refl.
    unfold pollRuns in *. rewrite Hs0, H1. lia. }
  assert (Hother : forall (s0 : Home) i,
             effects s0 = effects s -> i <> id ->
             pollRuns i (emit (EPoll id (S (pollAttempts c))) s0)
             = pollRuns i s).
  { intros s0 i Hs0 Hne. rewrite pollRuns_emit. simpl.
    destruct (Nat.eqb_spec id i); [congruence|].
    unfold pollRuns. rewrite Hs0. lia. }
  cbv zeta.
  cbn [connected connectionHandled pollAttempts connectionPoll
       withAttempts withPoll].
  set (c1 := withAttempts (S (pollAttempts c)) c).
  destruct (connected c && negb (connectionHandled c))%bool.
  - (* the poll sets the latch *)
    apply (pollInvariant_update s _ id c (withHandled true (withPoll false c1)));
      [ exact Hid
      | unfold activate; simpl; rewrite ?list_insert_insert_eq; reflexivity
      | reflexivity
      | intros i Hne; rewrite pollRuns_activate; now apply Hother
      | rewrite pollRuns_activate; simpl; now apply Hruns
      | simpl; lia
      | simpl; discriminate
      | simpl; rewrite Hpend; discriminate
      | exact Hinv ].
  - destruct (maxPollAttempts <=? S (pollAttempts c)) eqn:Hmax.
    + (* the budget is spent *)
      destruct (connected c).
      * apply (pollInvariant_update s _ id c
                 (withHandled true (withPoll false c1)));
          [ exact Hid
          | unfold activate; simpl; rewrite ?list_insert_insert_eq; reflexivity
          | reflexivity
          | intros i Hne; rewrite pollRuns_activate; now apply Hother
          | rewrite pollRuns_activate; simpl; now apply Hruns
          | simpl; lia
          | simpl; discriminate
          | simpl; rewrite Hpend; discriminate
          | exact Hinv ].
      * apply (pollInvariant_update s _ id c (withPoll false c1));
          [ exact Hid
          | simpl; rewrite ?list_insert_insert_eq; reflexivity
          | reflexivity
          | intros i Hne; now apply (Hother (setClient id c1 s))
          | now apply (Hruns (setClient id c1 s))
          | simpl; lia
          | simpl; discriminate
          | simpl; rewrite Hpend; discriminate
          | exact Hinv ].
    + (* an attempt below the budget *)
      apply Nat.leb_gt in Hmax.
      apply (pollInvariant_update s _ id c c1);
        [ exact Hid
        | reflexivity
        | reflexivity
        | intros i Hne; now apply (Hother (setClient id c1 s))
        | now apply (Hruns (setClient id c1 s))
        | simpl; lia
        | simpl; intros _; split; [exact Hmax | exact Hpend]
        | rewrite Hpend; discriminate
        | exact Hinv ].
Qed.

Lemma pollInvariant_startCall_connect s :
  (forall i, pollInvariant i s) ->
  forall i, pollInvariant i (startCall_connect s).
Proof.
  intros Hinv i. pose proof (Hinv i) as Hi.
  unfold pollInvariant in *. unfold startCall_connect.
  rewrite pendingConnects_suspend.
  change (pendingConnects i (emit ?e (setClients ?l s)))
    with (pendingConnects i s).
  change (pollRuns i (suspend ?a (emit ?e (setClients ?l s))))
    with (pollRuns i (emit e s)).
  rewrite pollRuns_emit.
  change (clients (suspend ?a (emit ?e (setClients ?l s)))) with l.
  cbn [isPollOf awaitsConnectOf]. rewrite Nat.add_0_r.
  destruct (Nat.lt_total i (length (clients s))) as [Hlt|[Heq|Hgt]].
  - rewrite lookup_app_l by assumption.
    destruct (Nat.eqb_spec (length (clients s)) i); [lia|].
    rewrite Nat.add_0_r. exact Hi.
  - subst i. rewrite list_lookup_middle by reflexivity.
    rewrite Nat.eqb_refl.
    assert (Hnone : clients s !! length (clients s) = None)
      by (apply lookup_ge_None; lia).
    rewrite Hnone in Hi. destruct Hi as [Hr Hp]. rewrite Hr, Hp. simpl.
    repeat split; try lia; discriminate.
  - assert (Hnone : clients s !! i = None) by (apply lookup_ge_None; lia).
    rewrite Hnone in Hi.
    rewrite lookup_ge_None_2 by (rewrite length_app; simpl; lia).
    destruct (Nat.eqb_spec (length (clients s)) i); [lia|].
    rewrite Nat.add_0_r. exact Hi.
Qed.

Lemma pollInvariant_startCall s :
  (forall i, pollInvariant i s) ->
  forall i, pollInvariant i (startCall s).
Proof.
  intros Hinv. unfold startCall.
  change (clientRef (setStatus connecting s)) with (clientRef s).
  destruct (clientRef s) as [old|].
  - apply (pollInvariant_same s); try reflexivity; try assumption.
    + intros i. unfold pollRuns. simpl.
      rewrite length_filter_snoc. simpl. apply Nat.add_0_r.
    + intros i. rewrite pendingConnects_suspend. simpl.
      rewrite Nat.add_0_r. apply Nat.le_refl.
  - apply pollInvariant_startCall_connect. exact Hinv.
Qed.

(** Taking a suspended callback off the list. *)
Lemma pollInvariant_resumed s k a :
  awaits s !! k = Some a ->
  (forall i, pollInvariant i s) ->
  forall i, pollInvariant i (setAwaits (delete k (awaits s)) s).
Proof.
  intros Hk Hinv. apply (pollInvariant_same s); try reflexivity; try assumption.
  intros i. unfold pendingConnects. simpl.
  rewrite (length_filter_delete (awaitsConnectOf i) _ k a Hk). lia.
Qed.

Lemma pollInvariant_settle s k ok :
  (forall i, pollInvariant i s) ->
  forall i, pollInvariant i (settle k ok s).
Proof.
  intros Hinv. unfold settle.
  destruct (awaits s !! k) as [a|] eqn:Hk; [|exact Hinv].
  pose proof (pollInvariant_resumed s k a Hk Hinv) as Hinv0.
  set (s0 := setAwaits (delete k (awaits s)) s) in *.
  destruct a as [old|id|id]; simpl; destruct ok.
  - now apply pollInvariant_startCall_connect.
  - exact Hinv0.
  - (* the poll of client [id] is installed *)
    unfold startCall_connected.
    destruct (clients s0 !! id) as [c|] eqn:Hid; [|exact Hinv0].
    pose proof (Hinv id) as Hi. unfold pollInvariant in Hi.
    change (clients s0) with (clients s) in Hid. rewrite Hid in Hi.
    destruct Hi as (H1 & H2 & H3 & H4 & H5).
    assert (Hone : pendingConnects id s = 1 /\ pendingConnects id s0 = 0).
    { unfold pendingConnects in *. subst s0. simpl.
      rewrite (length_filter_delete (awaitsConnectOf id) _ k _ Hk) in H3 |- *.
      simpl in *. rewrite Nat.eqb_refl in *. lia. }
    destruct Hone as [Hone Hzero]. destruct (H5 Hone) as [Hatt Hpoll].
    apply (pollInvariant_update s0 _ id c (withPoll true (withAttempts 0 c)));
      [ exact Hid
      | reflexivity
      | reflexivity
      | reflexivity
      | change (pollRuns id s = 0); lia
      | simpl; unfold maxPollAttempts; lia
      | simpl; intros _; split; [unfold maxPollAttempts; lia | exact Hzero]
      | rewrite Hzero; discriminate
      | exact Hinv0 ].
  - exact Hinv0.
  - exact Hinv0.
  - apply (pollInvariant_same s0); try reflexivity; try assumption.
    intros i. rewrite pollRuns_emit. simpl. apply Nat.add_0_r.
Qed.

Lemma pollInvariant_step s e :
  (forall i, pollInvariant i s) ->
  forall i, pollInvariant i (step s e).
Proof.
  intros Hinv. destruct e; simpl.
  - now apply pollInvariant_startCall.
  - now apply pollInvariant_endCall.
  - now apply pollInvariant_toggleMute.
  - now apply pollInvariant_settle.
  - now apply pollInvariant_onTransportStateChanged.
  - now apply pollInvariant_onConnected.
  - now apply pollInvariant_onDisconnected.
  - now apply pollInvariant_onError.
  - now apply pollInvariant_connectionPollTick.
  - now apply pollInvariant_transportSets.
Qed.

Lemma pollInvariant_reachable s :
  reachable s -> forall i, pollInvariant i s.
Proof.
  induction 1 as [|s e Hs IH].
  - intros i. unfold pollInvariant.
    change (clients init !! i) with (@nil Client !! i).
    rewrite lookup_nil. split; reflexivity.
  - now apply pollInvariant_step.
Qed.

(** *** Runs without a positive signal *)


(** A poll of a client whose [connected] flag is off changes neither the
    status nor the start time, and the flag stays off. *)
Lemma connectionPollTick_disconnected s id now c :
  clients s !! id = Some c -> connected c = false ->
  let s' := connectionPollTick id now s in
  status s' = status s /\ startTime s' = startTime s /\
  activations s' = activations s /\
  exists c', clients s' !! id = Some c' /\ connected c' = false /\
    connectionHandled c' = connectionHandled c /\
    (connectionPoll c = true ->
       pollAttempts c' = S (pollAttempts c) /\
       connectionPoll c' = negb (maxPollAttempts <=? S (pollAttempts c))) /\
    (connectionPoll c = false -> c' = c).
Proof.
  intros Hid Hoff. unfold connectionPollTick. rewrite Hid.
  destruct (connectionPoll c) eqn:Hlive.
  - cbv zeta.
    cbn [connected connectionHandled pollAttempts connectionPoll
         withAttempts withPoll].
    rewrite Hoff. cbn [andb].
    assert (Hlt : id < length (clients s)) by (eapply lookup_lt_Some; eauto).
    destruct (maxPollAttempts <=? S (pollAttempts c)) eqn:Hmax.
    + split; [reflexivity|]. split; [reflexivity|].
      split; [unfold activations; simpl; rewrite omap_app; apply app_nil_r|].
      eexists. split.
      * simpl. rewrite list_insert_insert_eq.
        apply list_lookup_insert_eq. exact Hlt.
      * repeat split; try assumption; try discriminate.
    + split; [reflexivity|]. split; [reflexivity|].
      split; [unfold activations; simpl; rewrite omap_app; apply app_nil_r|].
      eexists. split.
      * simpl. apply list_lookup_insert_eq. exact Hlt.
      * repeat split; try assumption; try discriminate.
  - repeat split; try reflexivity. exists c.
    repeat split; try assumption; discriminate.
Qed.

Lemma step_quiet s id e c :
  clients s !! id = Some c -> connected c = false ->
  quiet id e = true ->
  status (step s e) = status s /\ startTime (step s e) = startTime s /\
  activations (step s e) = activations s /\
  exists c', clients (step s e) !! id = Some c' /\ connected c' = false.
Proof.
  intros Hid Hoff Hq. destruct e; try discriminate; simpl in *.
  - unfold onTransportStateChanged.
    destruct (clients s !! id0) as [c0|]; [|now eauto 6].
    apply negb_true_iff in Hq. rewrite Hq. simpl. now eauto 6.
  - apply Nat.eqb_eq in Hq. subst id0.
    destruct (connectionPollTick_disconnected s id now c Hid Hoff)
      as (H1 & H2 & H3 & c' & H4 & H5 & _).
    now eauto 6.
Qed.

Lemma run_quiet es : forall s id c,
  clients s !! id = Some c -> connected c = false ->
  forallb (quiet id) es = true ->
  status (run s es) = status s /\ startTime (run s es) = startTime s /\
  activations (run s es) = activations s.
Proof.
  induction es as [|e es IH]; intros s id c Hid Hoff Hq; [now auto|].
  simpl in Hq. apply andb_true_iff in Hq as [He Hes].
  destruct (step_quiet s id e c Hid Hoff He) as (H1 & H2 & H3 & c' & H4 & H5).
  rewrite run_cons.
  destruct (IH (step s e) id c' H4 H5 Hes) as (G1 & G2 & G3).
  rewrite G1, G2, G3. now auto.
Qed.

(** Polls in a row of a client whose flag is off, as long as the budget
    lasts: the counter follows, and the interval is cleared by the run that
    spends the budget. *)
Lemma run_polls_disconnected nows : forall s id c,
  clients s !! id = Some c -> connected c = false ->
  connectionPoll c = true -> pollAttempts c < maxPollAttempts ->
  pollAttempts c + length nows <= maxPollAttempts ->
  exists c', clients (run s (map (EvPoll id) nows)) !! id = Some c' /\
    connected c' = false /\
    connectionHandled c' = connectionHandled c /\
    pollAttempts c' = pollAttempts c + length nows /\
    connectionPoll c' = negb (maxPollAttempts <=? pollAttempts c').
Proof.
  induction nows as [|now nows IH]; intros s id c Hid Hoff Hlive Hlt Hle.
  - exists c. cbn [map run fold_left length]. rewrite Nat.add_0_r.
    split; [exact Hid|]. split; [exact Hoff|]. split; [reflexivity|].
    split; [reflexivity|]. rewrite Hlive. symmetry.
    apply negb_true_iff. now apply Nat.leb_gt.
  - simpl map. rewrite run_cons. simpl step. simpl length in *.
    destruct (connectionPollTick_disconnected s id now c Hid Hoff)
      as (_ & _ & _ & c' & H1 & H2 & H3 & H4 & _).
    destruct (H4 Hlive) as [Hatt Hpoll].
    destruct (Nat.leb_spec maxPollAttempts (S (pollAttempts c))) as [Hge|Hlt'].
    + (* the budget is spent: no poll is left *)
      assert (nows = []) by (destruct nows; [reflexivity | simpl in Hle; lia]).
      subst nows. exists c'. cbn [map run fold_left length].
      split; [exact H1|]. split; [exact H2|]. split; [exact H3|]. split.
      * lia.
      * rewrite Hpoll, Hatt. f_equal. symmetry. now apply Nat.leb_le.
    + simpl in Hpoll.
      destruct (IH _ id c' H1 H2 Hpoll ltac:(lia) ltac:(lia))
        as (c'' & G1 & G2 & G3 & G4 & G5).
      exists c''. repeat split; try assumption; try congruence. lia.
Qed.

(** *** Resuming the callback suspended last *)

Lemma delete_snoc {A} (l : list A) (x : A) : delete (length l) (l ++ [x]) = l.
Proof. induction l as [|y l IH]; [reflexivity|]. simpl. now f_equal. Qed.

Lemma settle_suspend a ok s :
  settle (length (awaits s)) ok (suspend a s) = resume a ok s.
Proof.
  unfold settle, suspend. simpl.
  rewrite list_lookup_middle by reflexivity.
  rewrite delete_snoc. now destruct s.
Qed.

Lemma settle_lookup k ok s a :
  awaits s !! k = Some a ->
  settle k ok s = resume a ok (setAwaits (delete k (awaits s)) s).
Proof. intros H. unfold settle. now rewrite H. Qed.

(* --------------------------------------------------------------------- *)
(** *** The activation latch *)

(** C1, evaluated on the code.  The claim: whatever signals arrive after a
    call-start, the session is activated once and the start time captured
    once.  Here [connect] returns, the transport reports "ready" 50 ms
    later and the transport stays connected while the poll runs its ten
    attempts: the direct check of the tenth attempt (page.tsx:132) does not
    test [connectionHandled], so the activation block runs a second time
    and [startTime] moves from 50 to 3000. *)
Theorem final_check_ignores_latch :
  let s := run init
             ([EvStartCall; EvSettle 0 true; EvTransport 0 true;
               EvTransportStateChanged 0 "ready" 50] ++
              map (EvPoll 0)
                [300; 600; 900; 1200; 1500; 1800; 2100; 2400; 2700; 3000]%Z) in
  activations s = [50; 3000]%Z /\ startTime s = Some 3000%Z /\
  status s = active /\ pollRuns 0 s = 10.
Proof. vm_compute. repeat split. Qed.

(* --------------------------------------------------------------------- *)
(** *** endCall *)

(** C4 fails as stated: an [endCall] whose [disconnect] is rejected leaves
    the active session as it was, and its own promise is rejected. *)
Lemma endCall_rejected_keeps_session :
  let s := run init
             [EvStartCall; EvSettle 0 true; EvConnected 0 50;
              EvEndCall; EvSettle 0 false] in
  status s = active /\ startTime s = Some 50%Z /\ clientRef s = Some 0 /\
  effects s = [EConnect 0; EActivate 0 50; EDisconnect 0; ERejected].
Proof. vm_compute. repeat split. Qed.

(** C4, amended.  With no handle held [endCall] resets to idle at once and
    calls nothing.  With a handle it calls [disconnect] and waits; when the
    teardown succeeds it drops the handle and resets to idle without a
    rejection; when the teardown fails its promise is rejected and status,
    start time and handle stay as they were. *)
Theorem endCall_resets_unless_teardown_fails (s : Home) :
  (clientRef s = None ->
     status (endCall s) = idle /\ startTime (endCall s) = None /\
     effects (endCall s) = effects s /\ awaits (endCall s) = awaits s) /\
  (forall id, clientRef s = Some id ->
     effects (endCall s) = effects s ++ [EDisconnect id] /\
     awaits (endCall s) = awaits s ++ [EndAwaitsDisconnect id] /\
     status (endCall s) = status s /\ startTime (endCall s) = startTime s) /\
  (forall k id, awaits s !! k = Some (EndAwaitsDisconnect id) ->
     status (settle k true s) = idle /\ startTime (settle k true s) = None /\
     clientRef (settle k true s) = None /\
     effects (settle k true s) = effects s) /\
  (forall k id, awaits s !! k = Some (EndAwaitsDisconnect id) ->
     status (settle k false s) = status s /\
     startTime (settle k false s) = startTime s /\
     clientRef (settle k false s) = clientRef s /\
     effects (settle k false s) = effects s ++ [ERejected]).
Proof.
  repeat split; unfold endCall; try rewrite H; try reflexivity;
    rewrite (settle_lookup _ _ _ _ H); reflexivity.
Qed.

Lemma endCall_resets_unless_teardown_fails_witness :
  let s := run init [EvStartCall; EvSettle 0 true; EvConnected 0 50] in
  status (run init [EvEndCall]) = idle /\
  status (run s [EvEndCall; EvSettle 0 true]) = idle /\
  startTime (run s [EvEndCall; EvSettle 0 true]) = None.
Proof.
  cbv zeta. split.
  - apply (endCall_resets_unless_teardown_fails init). reflexivity.
  - set (s := run init [EvStartCall; EvSettle 0 true; EvConnected 0 50]).
    destruct (endCall_resets_unless_teardown_fails (endCall s))
      as (_ & _ & H & _).
    destruct (H 0 0 eq_refl) as (H1 & H2 & _). split; [exact H1 | exact H2].
Defined.

(* --------------------------------------------------------------------- *)
(** *** startCall over an open handle *)

(** C5 fails as stated: when the teardown of the old handle is rejected,
    [startCall] ends in its [catch]: the status is "error", no second client
    is built and [connect] is not called again. *)
Lemma failed_teardown_blocks_connect :
  let s := run init
             [EvStartCall; EvSettle 0 true; EvStartCall; EvSettle 0 false] in
  status s = error /\ effects s = [EConnect 0; EDisconnect 0] /\
  length (clients s) = 1 /\ awaits s = [].
Proof. vm_compute. repeat split. Qed.

(** C5, amended.  With a handle [old] held, [startCall] calls
    [old.disconnect()] and waits before anything else.  When that teardown
    succeeds the new client is built and its [connect] is called, after the
    disconnect; when it fails the status becomes "error" and no [connect]
    is called. *)
Theorem startCall_teardown_then_connect (s : Home) (old : nat) :
  clientRef s = Some old ->
  let k := length (awaits s) in
  let n := length (clients s) in
  (effects (startCall s) = effects s ++ [EDisconnect old] /\
   awaits (startCall s) = awaits s ++ [StartAwaitsDisconnect old] /\
   clients (startCall s) = clients s /\ status (startCall s) = connecting) /\
  (let s' := run s [EvStartCall; EvSettle k true] in
   effects s' = effects s ++ [EDisconnect old; EConnect n] /\
   awaits s' = awaits s ++ [StartAwaitsConnect n] /\
   length (clients s') = S n /\ status s' = connecting) /\
  (let s' := run s [EvStartCall; EvSettle k false] in
   effects s' = effects s ++ [EDisconnect old] /\
   awaits s' = awaits s /\ clients s' = clients s /\ status s' = error).
Proof.
  intros Hold k n.
  assert (Hstart : startCall s
                   = suspend (StartAwaitsDisconnect old)
                       (emit (EDisconnect old) (setStatus connecting s))).
  { unfold startCall. simpl. now rewrite Hold. }
  split; [rewrite Hstart; repeat split|].
  cbv zeta. unfold run. simpl fold_left. rewrite Hstart.
  subst k n.
  change (length (awaits s))
    with (length (awaits (emit (EDisconnect old) (setStatus connecting s)))).
  rewrite !settle_suspend. simpl.
  rewrite <- app_assoc, length_app, Nat.add_1_r. repeat split.
Qed.

Lemma startCall_teardown_then_connect_witness :
  let s := run init [EvStartCall; EvSettle 0 true] in
  effects (run s [EvStartCall; EvSettle 0 true])
  = effects s ++ [EDisconnect 0; EConnect 1] /\
  status (run s [EvStartCall; EvSettle 0 false]) = error.
Proof.
  cbv zeta.
  destruct (startCall_teardown_then_connect
              (run init [EvStartCall; EvSettle 0 true]) 0 eq_refl)
    as (_ & (H1 & _) & (_ & _ & _ & H2)).
  split; [exact H1 | exact H2].
Defined.

(* --------------------------------------------------------------------- *)
(** *** The poll budget *)

(** C6.  Let the session be connecting and the transport of client [id]
    report [connected = false].  Then every run of events that carry no
    positive signal (polls of that client, transport states other than
    "connected" and "ready") leaves the status at "connecting", the start
    time untouched and no activation executed; and when the poll starts
    from zero, its ten attempts end with the interval cleared and the latch
    as it was. *)
Theorem stuck_in_connecting (s : Home) (id : nat) (c : Client) :
  status s = connecting ->
  clients s !! id = Some c ->
  connected c = false ->
  (forall es, forallb (quiet id) es = true ->
     status (run s es) = connecting /\
     startTime (run s es) = startTime s /\
     activations (run s es) = activations s) /\
  (connectionPoll c = true -> pollAttempts c = 0 ->
   forall nows, length nows = maxPollAttempts ->
     exists c', clients (run s (map (EvPoll id) nows)) !! id = Some c' /\
       connectionPoll c' = false /\ pollAttempts c' = maxPollAttempts /\
       connectionHandled c' = connectionHandled c).
Proof.
  intros Hst Hid Hoff. split.
  - intros es Hq. destruct (run_quiet es s id c Hid Hoff Hq) as (H1 & H2 & H3).
    rewrite H1, H2, H3. now auto.
  - intros Hlive Hzero nows Hlen.
    destruct (run_polls_disconnected nows s id c Hid Hoff Hlive)
      as (c' & H1 & H2 & H3 & H4 & H5).
    + rewrite Hzero. unfold maxPollAttempts. lia.
    + rewrite Hzero, Hlen. apply Nat.le_refl.
    + rewrite Hzero, Hlen in H4. simpl in H4.
      exists c'. rewrite H5, H4, Nat.leb_refl. now auto.
Qed.

Lemma stuck_in_connecting_witness :
  let s := run init [EvStartCall; EvSettle 0 true] in
  let polls := map (EvPoll 0)
                 [300; 600; 900; 1200; 1500; 1800; 2100; 2400; 2700; 3000]%Z in
  status (run s polls) = connecting /\ startTime (run s polls) = None.
Proof.
  cbv zeta.
  destruct (stuck_in_connecting
              (run init [EvStartCall; EvSettle 0 true]) 0
              (mkClient false false 0 true) eq_refl eq_refl eq_refl)
    as [H _].
  destruct (H (map (EvPoll 0)
                 [300; 600; 900; 1200; 1500; 1800; 2100; 2400; 2700; 3000]%Z)
              eq_refl) as (H1 & H2 & _).
  split; [exact H1 | exact H2].
Defined.

(** C10.  In every state the controller can reach, the poll callback of a
    client has run at most ten times; its counter [pollAttempts] is the
    number of those runs; an interval that is still installed has run
    fewer than ten times; and once ten runs are done a further firing of
    the timer changes nothing. *)
Theorem poll_runs_at_most_ten (es : list Event) (id : nat) :
  let s := run init es in
  pollRuns id s <= 10 /\
  (forall c, clients s !! id = Some c ->
     pollRuns id s = pollAttempts c /\
     (connectionPoll c = true -> pollRuns id s < 10)) /\
  (10 <= pollRuns id s -> forall now, connectionPollTick id now s = s).
Proof.
  cbv zeta.
  pose proof (pollInvariant_reachable _ (reachable_run init es reachable_init) id)
    as Hinv.
  unfold pollInvariant in Hinv. unfold connectionPollTick.
  change maxPollAttempts with 10 in Hinv.
  destruct (clients (run init es) !! id) as [c|].
  - destruct Hinv as (H1 & H2 & H3 & H4 & H5). split; [lia|]. split.
    + intros c' [= <-]. split; [exact H1|]. intros Hl.
      destruct (H4 Hl). lia.
    + intros Hten now. destruct (connectionPoll c); [|reflexivity].
      destruct (H4 eq_refl). lia.
  - destruct Hinv as [H1 _]. split; [lia|]. split; [discriminate|reflexivity].
Qed.

Lemma poll_runs_at_most_ten_witness :
  let es := [EvStartCall; EvSettle 0 true] ++
            map (EvPoll 0)
              [300; 600; 900; 1200; 1500; 1800; 2100; 2400; 2700; 3000;
               3300; 3600]%Z in
  pollRuns 0 (run init es) = 10 /\
  connectionPollTick 0 3900 (run init es) = run init es.
Proof.
  cbv zeta. split; [reflexivity|].
  apply (poll_runs_at_most_ten _ 0). vm_compute. easy.
Defined.

(* --------------------------------------------------------------------- *)
(** *** toggleMute *)

(** C7 fails as stated.  After a "disconnected" event the status is idle
    but [clientRef.current] still holds the client, and [toggleMute] calls
    [enableMic] on it; and when "connected" fires before [connect] has
    returned the status is active, no handle is stored yet, and
    [toggleMute] does nothing. *)
Lemma toggleMute_ignores_status :
  let s := run init
             [EvStartCall; EvSettle 0 true; EvConnected 0 50;
              EvDisconnected 0] in
  let s' := run init [EvStartCall; EvConnected 0 50] in
  (status s = idle /\
   effects (toggleMute s) = effects s ++ [EEnableMic 0 false] /\
   isMuted (toggleMute s) = true) /\
  (status s' = active /\ toggleMute s' = s').
Proof. vm_compute. repeat split. Qed.

(** C7, amended.  [toggleMute] is guarded by the handle, not by the status.
    With a handle held it flips [isMuted] and calls [enableMic] with the
    negation of the new value; with none it calls nothing and leaves
    [isMuted] as it is. *)
Theorem toggleMute_follows_clientRef (s : Home) :
  (forall id, clientRef s = Some id ->
     isMuted (toggleMute s) = negb (isMuted s) /\
     effects (toggleMute s)
     = effects s ++ [EEnableMic id (negb (isMuted (toggleMute s)))] /\
     status (toggleMute s) = status s /\
     startTime (toggleMute s) = startTime s) /\
  (clientRef s = None -> toggleMute s = s).
Proof.
  unfold toggleMute. split.
  - intros id ->. repeat split.
  - intros ->. reflexivity.
Qed.

Lemma toggleMute_follows_clientRef_witness :
  let s := run init [EvStartCall; EvSettle 0 true; EvConnected 0 50] in
  effects (toggleMute s) = effects s ++ [EEnableMic 0 false] /\
  toggleMute init = init.
Proof.
  cbv zeta. split.
  - destruct (toggleMute_follows_clientRef
                (run init [EvStartCall; EvSettle 0 true; EvConnected 0 50]))
      as [H _].
    destruct (H 0 eq_refl) as (_ & H2 & _). exact H2.
  - apply (toggleMute_follows_clientRef init). reflexivity.
Defined.

(* --------------------------------------------------------------------- *)
(** *** Who cancels the poll *)

(** C3 fails as stated.  The latch is set by the "ready" event at 50 ms;
    the interval stays installed and its callback runs at 300 ms.  The same
    holds after a completed [endCall] and after a "disconnected" event:
    the status is idle, the interval is still installed and still runs. *)
Lemma poll_outlives_latch_and_session :
  let s := run init
             [EvStartCall; EvSettle 0 true; EvTransport 0 true;
              EvTransportStateChanged 0 "ready" 50] in
  let ended := run s [EvEndCall; EvSettle 0 true; EvTransport 0 false] in
  let dropped := run s [EvTransport 0 false; EvDisconnected 0] in
  (clients s !! 0 = Some (mkClient true true 0 true) /\
   pollRuns 0 (run s [EvPoll 0 300]) = 1) /\
  (status ended = idle /\
   clients ended !! 0 = Some (mkClient false true 0 true) /\
   pollRuns 0 (run ended [EvPoll 0 300]) = 1) /\
  (status dropped = idle /\
   clients dropped !! 0 = Some (mkClient false false 0 true) /\
   pollRuns 0 (run dropped [EvPoll 0 300]) = 1).
Proof. vm_compute. repeat split. Qed.

(** Replacing a client by one with the same interval keeps a live poll
    live, whichever client is looked at. *)
Lemma live_setClient s j c0 cj id c :
  clients s !! j = Some c0 -> connectionPoll cj = connectionPoll c0 ->
  clients s !! id = Some c -> connectionPoll c = true ->
  exists c', clients (setClient j cj s) !! id = Some c' /\
             connectionPoll c' = true.
Proof.
  intros Hj Hsame Hid Hlive. cbn [clients setClient setClients].
  destruct (decide (j = id)) as [->|Hne].
  - rewrite list_lookup_insert_eq by (eapply lookup_lt_Some; eassumption).
    exists cj. split; [reflexivity|]. congruence.
  - rewrite list_lookup_insert_ne by assumption. now eauto.
Qed.

(** No event other than a run of its own callback clears a live poll. *)
Lemma live_poll_kept s e id c :
  clients s !! id = Some c -> connectionPoll c = true ->
  isPollOfClient id e = false ->
  exists c', clients (step s e) !! id = Some c' /\ connectionPoll c' = true.
Proof.
  intros Hid Hlive He.
  assert (Hsame : exists c', clients s !! id = Some c' /\
                             connectionPoll c' = true) by eauto.
  destruct e as [| | |k ok|j state now|j now|j|j|j now|j v]; cbn [step].
  - unfold startCall, startCall_connect.
    change (clientRef (setStatus connecting s)) with (clientRef s).
    destruct (clientRef s); [exact Hsame|].
    cbn [clients suspend setAwaits emit setClients setStatus].
    rewrite lookup_app_l by (eapply lookup_lt_Some; eassumption). exact Hsame.
  - unfold endCall. destruct (clientRef s); exact Hsame.
  - unfold toggleMute. destruct (clientRef s); exact Hsame.
  - unfold settle. destruct (awaits s !! k) as [a|]; [|exact Hsame].
    destruct a as [old|j|j], ok; cbn [resume]; try exact Hsame.
    + unfold startCall_connect.
      cbn [clients suspend setAwaits emit setClients].
      rewrite lookup_app_l by (eapply lookup_lt_Some; eassumption).
      exact Hsame.
    + unfold startCall_connected. cbn [clients setAwaits].
      destruct (clients s !! j) as [cj|] eqn:Hj; [|exact Hsame].
      cbn [clients setClientRef setClient setClients].
      destruct (decide (j = id)) as [->|Hne].
      * rewrite list_lookup_insert_eq by (eapply lookup_lt_Some; eassumption).
        now eauto.
      * rewrite list_lookup_insert_ne by assumption. exact Hsame.
  - unfold onTransportStateChanged.
    destruct (clients s !! j) as [cj|] eqn:Hj; [|exact Hsame].
    destruct (activating state && negb (connectionHandled cj))%bool;
      [|exact Hsame].
    apply (live_setClient s j cj (withHandled true cj) id c); auto.
  - unfold onConnected.
    destruct (clients s !! j) as [cj|] eqn:Hj; [|exact Hsame].
    destruct (negb (connectionHandled cj)); [|exact Hsame].
    apply (live_setClient s j cj (withHandled true cj) id c); auto.
  - unfold onDisconnected.
    destruct (clients s !! j) as [cj|] eqn:Hj; [|exact Hsame].
    apply (live_setClient s j cj (withHandled false cj) id c); auto.
  - unfold onError. destruct (clients s !! j); exact Hsame.
  - cbn [isPollOfClient] in He. apply Nat.eqb_neq in He.
    unfold connectionPollTick.
    destruct (clients s !! j) as [cj|] eqn:Hj; [|exact Hsame].
    destruct (connectionPoll cj); [|exact Hsame]. cbv zeta.
    assert (Hkeep : forall s' : Home,
               (exists cf, clients s' = <[j := cf]> (clients s)) ->
               exists c', clients s' !! id = Some c' /\
                          connectionPoll c' = true).
    { intros s' [cf ->]. rewrite list_lookup_insert_ne by assumption.
      exact Hsame. }
    destruct (connected _ && negb _)%bool;
      [|destruct (maxPollAttempts <=? _); [destruct (connected _)|]];
      apply Hkeep; eexists; unfold activate;
      cbn [clients emit setClient setClients setStartTime setStatus];
      rewrite ?list_insert_insert_eq; reflexivity.
  - unfold transportSets.
    destruct (clients s !! j) as [cj|] eqn:Hj; [|exact Hsame].
    apply (live_setClient s j cj (withConnected v cj) id c); auto.
Qed.

(** One run of a live poll: what it does to its own interval. *)
Lemma connectionPollTick_clears s id now c :
  clients s !! id = Some c -> connectionPoll c = true ->
  exists c', clients (connectionPollTick id now s) !! id = Some c' /\
    connectionPoll c'
    = negb ((connected c && negb (connectionHandled c))
            || (maxPollAttempts <=? S (pollAttempts c)))%bool /\
    connectionHandled c'
    = (connectionHandled c
       || connected c && (negb (connectionHandled c)
                          || (maxPollAttempts <=? S (pollAttempts c))))%bool.
Proof.
  intros Hid Hlive. unfold connectionPollTick. rewrite Hid, Hlive.
  cbv zeta.
  cbn [connected connectionHandled pollAttempts connectionPoll
       withAttempts withPoll].
  assert (Hlt : id < length (clients s)) by (eapply lookup_lt_Some; eauto).
  assert (Hlt' : forall c1 : Client, id < length (<[id := c1]> (clients s)))
    by (intros; now rewrite length_insert).
  destruct (connected c) eqn:Hc, (connectionHandled c) eqn:Hh;
    destruct (maxPollAttempts <=? S (pollAttempts c)) eqn:Hmax;
    cbn [andb orb negb]; eexists;
    (split; [ unfold activate; cbn [clients setClient setClients emit
                                    setStartTime setStatus];
              apply list_lookup_insert_eq; auto | ]);
    cbn [connectionPoll connectionHandled withHandled withPoll withAttempts];
    rewrite ?Hc, ?Hh, ?Hlive; split; reflexivity.
Qed.

(* --------------------------------------------------------------------- *)
(** *** The start time and the status *)

Lemma startTimeInvariant_step s e :
  startTimeInvariant s -> startTimeInvariant (step s e).
Proof.
  intros Hinv.
  destruct e as [| | |k ok|id state now|id now|id|id|id now|id v];
    cbn [step].
  - unfold startCall, startCall_connect.
    change (clientRef (setStatus connecting s)) with (clientRef s).
    destruct (clientRef s); exact I.
  - unfold endCall. destruct (clientRef s); [exact Hinv | reflexivity].
  - unfold toggleMute. destruct (clientRef s); exact Hinv.
  - unfold settle. destruct (awaits s !! k) as [a|]; [|exact Hinv].
    destruct a, ok; cbn [resume];
      try exact I; try exact Hinv; try reflexivity.
    unfold startCall_connected. cbn [clients setAwaits].
    destruct (clients s !! id); exact Hinv.
  - unfold onTransportStateChanged.
    destruct (clients s !! id) as [c|]; [|exact Hinv].
    destruct (activating state && negb (connectionHandled c))%bool;
      [discriminate | exact Hinv].
  - unfold onConnected.
    destruct (clients s !! id) as [c|]; [|exact Hinv].
    destruct (negb (connectionHandled c)); [discriminate | exact Hinv].
  - unfold onDisconnected.
    destruct (clients s !! id); [reflexivity | exact Hinv].
  - unfold onError.
    destruct (clients s !! id); [exact I | exact Hinv].
  - unfold connectionPollTick.
    destruct (clients s !! id) as [c|]; [|exact Hinv].
    destruct (connectionPoll c); [|exact Hinv]. cbv zeta.
    destruct (connected _ && negb _)%bool; [discriminate|].
    destruct (maxPollAttempts <=? _); [|exact Hinv].
    destruct (connected _); [discriminate | exact Hinv].
  - unfold transportSets. destruct (clients s !! id); exact Hinv.
Qed.

Lemma startTimeInvariant_reachable s : reachable s -> startTimeInvariant s.
Proof.
  induction 1 as [|s e Hs IH]; [reflexivity|].
  now apply startTimeInvariant_step.
Qed.

(** C2 fails as stated.  After an activation at time 50 the "error"
    handler (page.tsx:68-71) sets the status and leaves [startTime]: the
    status is "error" and the start time is still set. *)
Lemma error_keeps_startTime :
  let s := run init
             [EvStartCall; EvSettle 0 true; EvConnected 0 50; EvError 0] in
  status s = error /\ startTime s = Some 50%Z.
Proof. vm_compute. repeat split. Qed.

(** C2, amended.  In every state the controller can reach, an active
    session has its start time and an idle controller has none; the
    "disconnected" handler and an [endCall] whose teardown succeeded leave
    the status idle and the start time cleared. *)
Theorem startTime_follows_status (es : list Event) :
  let s := run init es in
  (status s = active -> exists t, startTime s = Some t) /\
  (status s = idle -> startTime s = None) /\
  (forall id c, clients s !! id = Some c ->
     status (onDisconnected id s) = idle /\
     startTime (onDisconnected id s) = None) /\
  (forall k id, awaits s !! k = Some (EndAwaitsDisconnect id) ->
     status (settle k true s) = idle /\ startTime (settle k true s) = None).
Proof.
  cbv zeta.
  pose proof (startTimeInvariant_reachable _
                (reachable_run init es reachable_init)) as Hinv.
  unfold startTimeInvariant in Hinv.
  split; [|split; [|split]].
  - intros Ha. rewrite Ha in Hinv.
    destruct (startTime (run init es)) as [t|]; [now exists t | contradiction].
  - intros Hi. now rewrite Hi in Hinv.
  - intros id c Hid. unfold onDisconnected. rewrite Hid. split; reflexivity.
  - intros k id Hk. rewrite (settle_lookup _ _ _ _ Hk). split; reflexivity.
Qed.

Lemma startTime_follows_status_witness :
  (exists t,
     startTime (run init [EvStartCall; EvSettle 0 true; EvConnected 0 50])
     = Some t) /\
  startTime (run init [EvStartCall; EvSettle 0 true; EvConnected 0 50;
                       EvDisconnected 0]) = None.
Proof.
  split.
  - apply (startTime_follows_status
             [EvStartCall; EvSettle 0 true; EvConnected 0 50]).
    reflexivity.
  - apply (startTime_follows_status
             [EvStartCall; EvSettle 0 true; EvConnected 0 50;
              EvDisconnected 0]).
    reflexivity.
Defined.

(* --------------------------------------------------------------------- *)
(** *** What the latch does stop *)



End ControllerFacts.

(* ===================================================================== *)
(** ** Facts about the session clock *)
(* ===================================================================== *)

Module ClockFacts.

Import Clock.

Local Open Scope Qc_scope.

Lemma clock_run_cons ct e es : run ct (e :: es) = run (step ct e) es.
Proof. reflexivity. Qed.

Lemma clock_reachable_run ct es : reachable ct -> reachable (run ct es).
Proof.
  revert ct. induction es as [|e es IH]; intros ct Hct; [exact Hct|].
  rewrite clock_run_cons. apply IH. now constructor.
Qed.

Lemma Props_eqb_eq p q : Props_eqb p q = true -> p = q.
Proof.
  destruct p as [a [x|]], q as [b [y|]]; unfold Props_eqb; simpl;
    intros H; apply andb_true_iff in H as [H1 H2];
    try discriminate; apply Bool.eqb_prop in H1; subst.
  - apply Z.eqb_eq in H2. now subst.
  - reflexivity.
Qed.

(** The cleanup leaves no interval behind. *)
Lemma cleanup_intervals ct :
  clockInvariant ct -> intervals (cleanup ct) = [].
Proof.
  unfold clockInvariant, cleanup, clearTimer.
  destruct (deps ct) as [p|].
  - destruct (fst p && truthy (snd p))%bool.
    + intros (h & t & _ & Hi & Hr). rewrite Hr. simpl. rewrite Hi. simpl.
      now rewrite Nat.eqb_refl.
    + intros Hi. destruct (timerRef ct); simpl; now rewrite Hi.
  - intros Hi. destruct (timerRef ct); simpl; now rewrite Hi.
Qed.

(** The effect, run where no interval is live. *)
Lemma effect_invariant p ct :
  intervals ct = [] -> clockInvariant (setDeps p (effect p ct)).
Proof.
  intros Hi. unfold clockInvariant, effect.
  destruct p as [a [t|]]; cbn [fst snd deps setDeps].
  - destruct (a && truthy (Some t))%bool eqn:Hact.
    + unfold setInterval. cbn [intervals timerRef]. rewrite Hi. now eauto.
    + unfold clearTimer. destruct (timerRef ct); simpl; now rewrite Hi.
  - rewrite andb_false_r.
    unfold clearTimer. destruct (timerRef ct); simpl; now rewrite Hi.
Qed.

Lemma clockInvariant_render p ct :
  clockInvariant ct -> clockInvariant (render p ct).
Proof.
  intros Hinv. unfold render.
  destruct (deps ct) as [q|] eqn:Hd.
  - destruct (Props_eqb p q); [exact Hinv|].
    apply effect_invariant. now apply cleanup_intervals.
  - apply effect_invariant. unfold clockInvariant in Hinv.
    now rewrite Hd in Hinv.
Qed.

Lemma clockInvariant_tick h now ct :
  clockInvariant ct -> clockInvariant (tick h now ct).
Proof.
  intros Hinv. unfold tick.
  destruct (closedOver h (intervals ct)); exact Hinv.
Qed.

Lemma clockInvariant_reachable ct : reachable ct -> clockInvariant ct.
Proof.
  induction 1 as [|ct e Hct IH]; [reflexivity|].
  destruct e; [now apply clockInvariant_render | now apply clockInvariant_tick].
Qed.

(** A render that does not satisfy [isActive && startTime] leaves no
    interval. *)
Lemma render_stopped p ct :
  clockInvariant ct -> (fst p && truthy (snd p))%bool = false ->
  intervals (render p ct) = [].
Proof.
  intros Hinv Hp. pose proof (clockInvariant_render p ct Hinv) as Hr.
  unfold clockInvariant in Hr.
  assert (Hd : deps (render p ct) = Some p).
  { unfold render. destruct (deps ct) as [q|] eqn:Hq; [|reflexivity].
    destruct (Props_eqb p q) eqn:Hpq; [|reflexivity].
    apply Props_eqb_eq in Hpq. now subst. }
  rewrite Hd, Hp in Hr. exact Hr.
Qed.







(* --------------------------------------------------------------------- *)
(** *** The claims about the clock *)





End ClockFacts.

(* ===================================================================== *)
(** ** The two timers together *)
(* ===================================================================== *)

Module TimerFacts.

Import Controller.

(** C3, amended.  The poll is cancelled from inside its own callback only:
    in the run in which the poll itself sets the latch, and in its tenth
    run at the latest; a cancelled poll does not run again, and no other
    event (a "connected" or "transportStateChanged" callback that sets the
    latch, an end-call, a "disconnected" event) clears it.  The clock
    interval is cancelled by the first render of the page with a status
    other than "active" (after an end-call, a disconnect or an error), and
    by the unmount of the component; a cancelled clock interval does not
    fire. *)
Theorem timers_cancelled_by_owner :
  (forall (s : Home) (id : nat) (now : Z) (c : Client),
     clients s !! id = Some c -> connectionPoll c = true ->
     exists c', clients (connectionPollTick id now s) !! id = Some c' /\
       (connected c = true -> connectionHandled c = false ->
          connectionHandled c' = true /\ connectionPoll c' = false) /\
       (maxPollAttempts <= S (pollAttempts c) -> connectionPoll c' = false)) /\
  (forall (s : Home) (id : nat) (now : Z) (c : Client),
     clients s !! id = Some c -> connectionPoll c = false ->
     connectionPollTick id now s = s) /\
  (forall (s : Home) (e : Event) (id : nat) (c : Client),
     clients s !! id = Some c -> connectionPoll c = true ->
     isPollOfClient id e = false ->
     exists c', clients (step s e) !! id = Some c' /\
                connectionPoll c' = true) /\
  (forall (ct : Clock.CostTracker) (s : Home),
     Clock.reachable ct -> status s <> active ->
     let ct' := Clock.render (Clock.propsOf s) ct in
     Clock.intervals ct' = [] /\
     forall h now, Clock.tick h now ct' = ct') /\
  (forall ct : Clock.CostTracker,
     Clock.reachable ct -> Clock.intervals (Clock.unmount ct) = []).
Proof.
  split; [|split; [|split; [|split]]].
  - intros s id now c Hid Hlive.
    destruct (ControllerFacts.connectionPollTick_clears s id now c Hid Hlive)
      as (c' & H1 & H2 & H3).
    exists c'. split; [exact H1|]. split.
    + intros Hc Hh. rewrite H2, H3, Hc, Hh. split; reflexivity.
    + intros Hmax. apply Nat.leb_le in Hmax. rewrite H2, Hmax.
      now rewrite orb_true_r.
  - intros s id now c Hid Hoff. unfold connectionPollTick.
    now rewrite Hid, Hoff.
  - intros s e id c. apply ControllerFacts.live_poll_kept.
  - intros ct s Hct Hst. cbv zeta.
    assert (Hi : Clock.intervals (Clock.render (Clock.propsOf s) ct) = []).
    { apply ClockFacts.render_stopped.
      - now apply ClockFacts.clockInvariant_reachable.
      - unfold Clock.propsOf. simpl. now destruct (status s). }
    split; [exact Hi|]. intros h now. unfold Clock.tick. now rewrite Hi.
  - intros ct Hct. apply ClockFacts.cleanup_intervals.
    now apply ClockFacts.clockInvariant_reachable.
Qed.

Lemma timers_cancelled_by_owner_witness :
  let s := run init [EvStartCall; EvSettle 0 true; EvTransport 0 true] in
  let ct := Clock.run Clock.mount
              [Clock.EvRender (true, Some 50%Z); Clock.EvTick 1 150] in
  (exists c', clients (connectionPollTick 0 300 s) !! 0 = Some c' /\
     connectionHandled c' = true /\ connectionPoll c' = false) /\
  Clock.intervals (Clock.render (Clock.propsOf init) ct) = [] /\
  Clock.intervals (Clock.unmount ct) = [].
Proof.
  cbv zeta.
  destruct timers_cancelled_by_owner as (Hpoll & _ & _ & Hclock & Hun).
  split; [|split].
  - destruct (Hpoll (run init [EvStartCall; EvSettle 0 true; EvTransport 0 true])
                0 300%Z (mkClient true false 0 true) eq_refl eq_refl)
      as (c' & H1 & H2 & _).
    exists c'. split; [exact H1|]. now apply H2.
  - apply Hclock.
    + apply ClockFacts.clock_reachable_run. constructor.
    + discriminate.
  - apply Hun. apply ClockFacts.clock_reachable_run. constructor.
Defined.

End TimerFacts.

(* ===================================================================== *)
(** ** Facts read off the effect trace *)
(* ===================================================================== *)

Module TraceFacts.

Import Controller Trace.

(** Case analysis on everything a step of the controller branches on. *)
Ltac step_cases :=
  unfold step, settle, resume, startCall, startCall_connect,
    startCall_connected, startCall_catch, endCall, endCall_reset, toggleMute,
    onTransportStateChanged, onConnected, onDisconnected, onError,
    connectionPollTick, transportSets, activate;
  cbv zeta;
  repeat match goal with
         | |- context [match ?x with _ => _ end] => destruct x eqn:?
         end.

Lemma micCalls_step s e :
  micCalls (step s e)
  = micCalls s ++ match e, clientRef s with
                  | EvToggleMute, Some _ => [isMuted s]
                  | _, _ => []
                  end.
Proof.
  destruct e; step_cases; unfold micCalls; cbn;
    rewrite ?omap_app; cbn; rewrite ?app_nil_r, ?negb_involutive;
    try reflexivity; congruence.
Qed.

Lemma isMuted_step s e :
  isMuted (step s e)
  = match e, clientRef s with
    | EvToggleMute, Some _ => negb (isMuted s)
    | _, _ => isMuted s
    end.
Proof. destruct e; step_cases; try reflexivity; congruence. Qed.

Lemma muteInvariant_reachable s : reachable s -> muteInvariant s.
Proof.
  induction 1 as [|s e Hs IH]; [reflexivity|].
  unfold muteInvariant in *. rewrite isMuted_step, micCalls_step.
  destruct e; rewrite ?app_nil_r; try exact IH.
  destruct (clientRef s); rewrite ?app_nil_r; [|exact IH].
  now rewrite last_snoc.
Qed.

Lemma lastActivationInvariant_step s e :
  lastActivationInvariant s -> lastActivationInvariant (step s e).
Proof.
  intros Hinv. unfold lastActivationInvariant, activations in *.
  destruct e; step_cases; cbn in *; try exact I;
    repeat match goal with
           | H : Some _ = Some _ |- _ => injection H as <-
           | H : Some _ = None |- _ => discriminate H
           | H : None = Some _ |- _ => discriminate H
           | H : startTime s = _ |- _ => rewrite H in Hinv
           end;
    rewrite ?omap_app; cbn; rewrite ?app_nil_r, ?last_snoc;
    try reflexivity; exact Hinv.
Qed.

Lemma lastActivationInvariant_reachable s :
  reachable s -> lastActivationInvariant s.
Proof.
  induction 1 as [|s e Hs IH]; [exact I|].
  now apply lastActivationInvariant_step.
Qed.

(** *** The shape of one step

    Either no client is built, and what the step records is no [connect]
    and is about built clients or the stored handle; or one client is
    built, and its [connect] is all the step records. *)
Lemma step_shape s e :
  (length (clients (step s e)) = length (clients s) /\
   exists l, effects (step s e) = effects s ++ l /\
     Forall (fun x => isConnect x = false /\
                      forall i, effectClient x = Some i ->
                                i < length (clients s) \/ clientRef s = Some i)
            l) \/
  (length (clients (step s e)) = S (length (clients s)) /\
   effects (step s e) = effects s ++ [EConnect (length (clients s))]).
Proof.
  assert (Hlt : forall (l : list Client) i c, l !! i = Some c -> i < length l)
    by (intros; eapply lookup_lt_Some; eassumption).
  destruct e; step_cases; cbn in *; rewrite <- ?app_assoc;
    first
      [ right; split; [rewrite length_app; cbn; lia | reflexivity]
      | left; split; [now rewrite ?length_insert|];
        first [ exists []; split; [now rewrite app_nil_r | constructor]
              | eexists; split; [reflexivity|];
                repeat (apply List.Forall_cons;
                          [ split; [reflexivity|]; cbn; intros i [= <-];
                            first [ left; eapply Hlt; eassumption
                                  | right; assumption
                                  | right; reflexivity ] | ]);
                apply List.Forall_nil ] ].
Qed.

Lemma callsOn_app s s' l id :
  effects s' = effects s ++ l ->
  callsOn id s' = callsOn id s ++ List.filter (addressedTo id) l.
Proof. intros H. unfold callsOn. now rewrite H, List.filter_app. Qed.

Lemma callsInvariant_step s e :
  handleInvariant s -> callsInvariant s -> callsInvariant (step s e).
Proof.
  intros Hh Hinv id. specialize (Hinv id).
  destruct (step_shape s e) as [(Hlen & l & Heff & Hl)|(Hlen & Heff)].
  - rewrite (callsOn_app _ _ _ id Heff), Hlen.
    assert (Hok : Forall (fun x => isConnect x = false /\
                            id < length (clients s))
                    (List.filter (addressedTo id) l)).
    { apply List.Forall_forall. intros x Hx. apply filter_In in Hx as [Hx Hid].
      rewrite List.Forall_forall in Hl. destruct (Hl x Hx) as [Hc Hi].
      split; [exact Hc|]. unfold addressedTo in Hid.
      destruct (effectClient x) as [i|] eqn:Hx'; [|discriminate].
      apply Nat.eqb_eq in Hid. subst i.
      destruct (Hi id eq_refl) as [?|Href]; [assumption|].
      now destruct (Hh id Href). }
    destruct (callsOn id s) as [|e0 l0].
    + destruct (List.filter (addressedTo id) l) as [|x l']; [exact Hinv|].
      inversion Hok as [|? ? [_ Hid] _]. lia.
    + destruct Hinv as (H1 & H2 & H3). cbn [app].
      split; [exact H1|]. split; [exact H2|].
      rewrite forallb_app, H3. cbn [andb].
      apply forallb_forall. intros x Hx. rewrite List.Forall_forall in Hok.
      destruct (Hok x Hx) as [-> _]. reflexivity.
  - rewrite (callsOn_app _ _ _ id Heff), Hlen. cbn [List.filter addressedTo
      effectClient].
    destruct (Nat.eqb_spec (length (clients s)) id) as [<-|Hne].
    + destruct (callsOn (length (clients s)) s) as [|e0 l0].
      * cbn. split; [lia|]. split; reflexivity.
      * destruct Hinv as [Hlt _]. lia.
    + rewrite app_nil_r. destruct (callsOn id s) as [|e0 l0].
      * lia.
      * destruct Hinv as (H1 & H2 & H3). split; [lia|]. now split.
Qed.

(** *** The stored handle *)

Lemma handleInvariant_same s s' :
  clientRef s' = clientRef s ->
  length (clients s) <= length (clients s') ->
  (forall id, id < length (clients s) ->
              pendingConnects id s' <= pendingConnects id s) ->
  handleInvariant s -> handleInvariant s'.
Proof.
  intros Hr Hl Hp Hinv id Hid. rewrite Hr in Hid.
  destruct (Hinv id Hid) as [Hlt Hz]. split; [lia|].
  specialize (Hp id Hlt). lia.
Qed.

Lemma handleInvariant_resumed s k a :
  awaits s !! k = Some a ->
  handleInvariant s -> handleInvariant (setAwaits (delete k (awaits s)) s).
Proof.
  intros Hk. apply handleInvariant_same; try reflexivity.
  intros id _. unfold pendingConnects. cbn.
  rewrite (ControllerFacts.length_filter_delete (awaitsConnectOf id) _ k a Hk).
  lia.
Qed.

Lemma handleInvariant_startCall_connect s :
  handleInvariant s -> handleInvariant (startCall_connect s).
Proof.
  apply handleInvariant_same.
  - reflexivity.
  - unfold startCall_connect. cbn. rewrite length_app. lia.
  - intros id Hlt. unfold startCall_connect.
    rewrite ControllerFacts.pendingConnects_suspend. cbn [awaitsConnectOf].
    destruct (Nat.eqb_spec (length (clients s)) id); [lia|].
    rewrite Nat.add_0_r. apply Nat.le_refl.
Qed.

Lemma handleInvariant_step s e :
  (forall i, pollInvariant i s) ->
  handleInvariant s -> handleInvariant (step s e).
Proof.
  intros Hpoll Hinv.
  destruct e as [| | |k ok|id state now|id now|id|id|id now|id v];
    cbn [step].
  - unfold startCall.
    change (clientRef (setStatus connecting s)) with (clientRef s).
    destruct (clientRef s) as [old|] eqn:Href.
    + revert Hinv. apply handleInvariant_same; try reflexivity.
      intros id _. rewrite ControllerFacts.pendingConnects_suspend. cbn.
      rewrite Nat.add_0_r. apply Nat.le_refl.
    + intros id Hid. cbn in Hid. congruence.
  - unfold endCall. destruct (clientRef s) as [old|] eqn:Href.
    + revert Hinv. apply handleInvariant_same; try reflexivity.
      intros id _. rewrite ControllerFacts.pendingConnects_suspend. cbn.
      rewrite Nat.add_0_r. apply Nat.le_refl.
    + revert Hinv. apply handleInvariant_same; reflexivity.
  - unfold toggleMute. destruct (clientRef s) as [old|] eqn:Href;
      [|exact Hinv].
    revert Hinv. apply handleInvariant_same; reflexivity.
  - unfold settle. destruct (awaits s !! k) as [a|] eqn:Hk; [|exact Hinv].
    pose proof (handleInvariant_resumed s k a Hk Hinv) as Hinv0.
    set (s0 := setAwaits (delete k (awaits s)) s) in *.
    destruct a as [old|j|j], ok; cbn [resume].
    + now apply handleInvariant_startCall_connect.
    + exact Hinv0.
    + unfold startCall_connected.
      destruct (clients s0 !! j) as [c|] eqn:Hj; [|exact Hinv0].
      intros id [= <-]. cbn [clients setClientRef setClient setClients].
      rewrite length_insert. split; [eapply lookup_lt_Some; exact Hj|].
      change (pendingConnects j s0 = 0).
      specialize (Hpoll j). unfold pollInvariant in Hpoll.
      change (clients s0) with (clients s) in Hj. rewrite Hj in Hpoll.
      destruct Hpoll as (_ & _ & Hle & _).
      unfold pendingConnects in *. subst s0. cbn.
      rewrite (ControllerFacts.length_filter_delete (awaitsConnectOf j) _ k _ Hk)
        in Hle.
      cbn in Hle. rewrite Nat.eqb_refl in Hle. lia.
    + exact Hinv0.
    + intros id Hid. cbn in Hid. discriminate.
    + exact Hinv0.
  - revert Hinv. apply handleInvariant_same;
      unfold onTransportStateChanged; step_cases; cbn;
      rewrite ?length_insert; auto.
  - revert Hinv. apply handleInvariant_same;
      unfold onConnected; step_cases; cbn; rewrite ?length_insert; auto.
  - revert Hinv. apply handleInvariant_same;
      unfold onDisconnected; step_cases; cbn; rewrite ?length_insert; auto.
  - revert Hinv. apply handleInvariant_same;
      unfold onError; step_cases; cbn; auto.
  - revert Hinv. apply handleInvariant_same;
      unfold connectionPollTick; step_cases; cbn;
      rewrite ?length_insert; auto.
  - revert Hinv. apply handleInvariant_same;
      unfold transportSets; step_cases; cbn; rewrite ?length_insert; auto.
Qed.

Lemma trace_invariants_reachable s :
  reachable s -> handleInvariant s /\ callsInvariant s.
Proof.
  induction 1 as [|s e Hs [IHh IHc]].
  - split; [intros id [=] | intros id; cbn; lia].
  - split.
    + apply handleInvariant_step; [|exact IHh].
      now apply ControllerFacts.pollInvariant_reachable.
    + now apply callsInvariant_step.
Qed.

(* --------------------------------------------------------------------- *)
(** *** Properties of every reachable state *)

(** X2.  In every state the controller can reach, a start time that is set
    is the time captured by the most recent activation block, and while the
    status is active the start time is exactly that capture. *)
Theorem startTime_is_latest_activation (es : list Event) :
  let s := run init es in
  (forall t, startTime s = Some t -> last (activations s) = Some t) /\
  (status s = active -> startTime s = last (activations s) /\
                        startTime s <> None).
Proof.
  cbv zeta.
  pose proof (ControllerFacts.reachable_run init es reachable_init) as Hs.
  pose proof (lastActivationInvariant_reachable _ Hs) as Hlast.
  pose proof (ControllerFacts.startTimeInvariant_reachable _ Hs) as Hact.
  unfold lastActivationInvariant in Hlast. unfold startTimeInvariant in Hact.
  split.
  - intros t Ht. now rewrite Ht in Hlast.
  - intros Ha. rewrite Ha in Hact.
    destruct (startTime (run init es)) as [t|]; [|contradiction].
    split; [now symmetry | discriminate].
Qed.

Lemma startTime_is_latest_activation_witness :
  let s := run init
             [EvStartCall; EvSettle 0 true; EvConnected 0 50;
              EvDisconnected 0; EvConnected 0 900] in
  last (activations s) = Some 900%Z.
Proof.
  cbv zeta.
  apply (startTime_is_latest_activation
           [EvStartCall; EvSettle 0 true; EvConnected 0 50;
            EvDisconnected 0; EvConnected 0 900]).
  reflexivity.
Defined.

(** X3.  In every reachable state [isMuted] is the negation of the value
    last passed to [enableMic] (false when it was never called).  Only
    [toggleMute] changes [isMuted] or calls [enableMic]: every other event,
    [startCall] and [endCall] included, leaves both as they are; with a
    handle stored, [toggleMute] flips the flag and passes [enableMic] the
    flag's old value. *)
Theorem isMuted_mirrors_enableMic (es : list Event) :
  let s := run init es in
  isMuted s = match last (micCalls s) with
              | Some b => negb b
              | None => false
              end /\
  (forall e, e <> EvToggleMute ->
     isMuted (step s e) = isMuted s /\ micCalls (step s e) = micCalls s) /\
  (forall id, clientRef s = Some id ->
     isMuted (toggleMute s) = negb (isMuted s) /\
     micCalls (toggleMute s) = micCalls s ++ [isMuted s]).
Proof.
  cbv zeta. split; [|split].
  - apply muteInvariant_reachable.
    apply ControllerFacts.reachable_run. constructor.
  - intros e He. rewrite isMuted_step, micCalls_step.
    destruct e; rewrite ?app_nil_r; try (split; reflexivity). contradiction.
  - intros id Href.
    pose proof (isMuted_step (run init es) EvToggleMute) as H1.
    pose proof (micCalls_step (run init es) EvToggleMute) as H2.
    rewrite Href in H1, H2. split; [exact H1 | exact H2].
Qed.

Lemma isMuted_mirrors_enableMic_witness :
  let s := run init [EvStartCall; EvSettle 0 true; EvToggleMute] in
  isMuted (step s EvEndCall) = isMuted s /\
  micCalls (toggleMute s) = micCalls s ++ [isMuted s].
Proof.
  cbv zeta.
  destruct (isMuted_mirrors_enableMic
              [EvStartCall; EvSettle 0 true; EvToggleMute]) as (_ & H1 & H2).
  split.
  - apply H1. discriminate.
  - apply (H2 0). reflexivity.
Defined.

(** X4.  In every reachable state, what is recorded about a client that
    was built starts with its [connect], which is never repeated; nothing
    is recorded about a client that was not built; and a handle stored in
    [clientRef.current] is a built client whose [connect] has returned. *)
Theorem calls_start_with_connect (es : list Event) (id : nat) :
  let s := run init es in
  (id < length (clients s) ->
     exists l, callsOn id s = EConnect id :: l /\
               forallb (fun x => negb (isConnect x)) l = true) /\
  (length (clients s) <= id -> callsOn id s = []) /\
  (clientRef s = Some id ->
     id < length (clients s) /\ pendingConnects id s = 0).
Proof.
  cbv zeta.
  destruct (trace_invariants_reachable _
              (ControllerFacts.reachable_run init es reachable_init))
    as [Hh Hc].
  specialize (Hc id). split; [|split].
  - intros Hlt. destruct (callsOn id (run init es)) as [|e l]; [lia|].
    destruct Hc as (_ & -> & Hl). now exists l.
  - intros Hge. destruct (callsOn id (run init es)) as [|e l];
      [reflexivity|]. destruct Hc as [Hlt _]. lia.
  - apply Hh.
Qed.

Lemma calls_start_with_connect_witness :
  let s := run init
             [EvStartCall; EvSettle 0 true; EvToggleMute; EvEndCall] in
  (exists l, callsOn 0 s = EConnect 0 :: l /\
             forallb (fun x => negb (isConnect x)) l = true) /\
  callsOn 1 s = [].
Proof.
  cbv zeta. split.
  - apply (calls_start_with_connect
             [EvStartCall; EvSettle 0 true; EvToggleMute; EvEndCall] 0).
    cbn. lia.
  - apply (calls_start_with_connect
             [EvStartCall; EvSettle 0 true; EvToggleMute; EvEndCall] 1).
    cbn. lia.
Defined.

(** X5.  Whenever a step builds a client, the [connect] call is all that
    step records, it is the first thing recorded about that client, and
    [isMuted] is left as it was: a client built while [isMuted] is true is
    not sent [enableMic(false)]. *)
Theorem new_client_is_not_muted (es : list Event) (e : Event) :
  let s := run init es in
  let n := length (clients s) in
  length (clients (step s e)) <> n ->
  length (clients (step s e)) = S n /\
  effects (step s e) = effects s ++ [EConnect n] /\
  callsOn n (step s e) = [EConnect n] /\
  isMuted (step s e) = isMuted s.
Proof.
  cbv zeta. intros Hnew.
  destruct (trace_invariants_reachable _
              (ControllerFacts.reachable_run init es reachable_init))
    as [_ Hc].
  destruct (step_shape (run init es) e) as [[Hlen _]|[Hlen Heff]];
    [contradiction|].
  split; [exact Hlen|]. split; [exact Heff|]. split.
  - rewrite (callsOn_app _ _ _ _ Heff). specialize (Hc (length (clients (run init es)))).
    destruct (callsOn _ (run init es)) as [|x l].
    + cbn. now rewrite Nat.eqb_refl.
    + destruct Hc as [Hlt _]. lia.
  - rewrite isMuted_step. destruct e; try reflexivity.
    exfalso. apply Hnew. unfold step, toggleMute.
    destruct (clientRef (run init es)); reflexivity.
Qed.

Lemma new_client_is_not_muted_witness :
  let s := run init
             [EvStartCall; EvSettle 0 true; EvToggleMute; EvEndCall;
              EvSettle 0 true] in
  isMuted s = true /\ callsOn 1 (step s EvStartCall) = [EConnect 1] /\
  isMuted (step s EvStartCall) = true.
Proof.
  cbv zeta. split; [reflexivity|].
  destruct (new_client_is_not_muted
              [EvStartCall; EvSettle 0 true; EvToggleMute; EvEndCall;
               EvSettle 0 true] EvStartCall) as (_ & _ & H1 & H2).
  - cbn. discriminate.
  - split; [exact H1 | exact H2].
Defined.

End TraceFacts.

(* ===================================================================== *)
(** ** Facts about the page *)
(* ===================================================================== *)

Module PageFacts.

Import Controller Page.

Lemma page_run_cons p e es : Page.run p (e :: es) = Page.run (Page.step p e) es.
Proof. reflexivity. Qed.

Lemma deps_render q ct : Clock.deps (Clock.render q ct) = Some q.
Proof.
  unfold Clock.render. destruct (Clock.deps ct) as [q'|] eqn:Hq; [|reflexivity].
  destruct (Clock.Props_eqb q q') eqn:Hqq; [|reflexivity].
  apply ClockFacts.Props_eqb_eq in Hqq. now subst.
Qed.

Lemma deps_tick h now ct :
  Clock.deps (Clock.tick h now ct) = Clock.deps ct.
Proof.
  unfold Clock.tick. now destruct (Clock.closedOver h (Clock.intervals ct)).
Qed.

(** The two components of a page that was run from its first render are
    reachable states of their own, and the clock has seen the props of the
    current controller state. *)
Lemma page_components es :
  let p := Page.run Page.init es in
  Controller.reachable (home p) /\ Clock.reachable (tracker p) /\
  Clock.deps (tracker p) = Some (Clock.propsOf (home p)).
Proof.
  cbv zeta.
  assert (H0 : Controller.reachable (home Page.init) /\
               Clock.reachable (tracker Page.init) /\
               Clock.deps (tracker Page.init)
               = Some (Clock.propsOf (home Page.init))).
  { split; [constructor|]. split; [|reflexivity].
    apply (Clock.reachable_step _ (Clock.EvRender _)). constructor. }
  revert H0. generalize Page.init. induction es as [|e es IH]; intros p Hp;
    [exact Hp|].
  rewrite page_run_cons. apply IH. destruct Hp as (Hh & Ht & Hd).
  assert (Hre : forall s', Controller.reachable s' ->
            Controller.reachable (home (rerender s' (tracker p))) /\
            Clock.reachable (tracker (rerender s' (tracker p))) /\
            Clock.deps (tracker (rerender s' (tracker p)))
            = Some (Clock.propsOf (home (rerender s' (tracker p))))).
  { intros s' Hs'. split; [exact Hs'|]. split.
    - apply (Clock.reachable_step _ (Clock.EvRender _)). exact Ht.
    - apply deps_render. }
  destruct e as [| |c|h now]; cbn [Page.step].
  - apply Hre. unfold clickMain. destruct (status (home p)).
    + apply (Controller.reachable_step _ EvStartCall Hh).
    + exact Hh.
    + apply (Controller.reachable_step _ EvEndCall Hh).
    + apply (Controller.reachable_step _ EvStartCall Hh).
  - apply Hre. unfold clickMute. destruct (status (home p)); try exact Hh.
    apply (Controller.reachable_step _ EvToggleMute Hh).
  - destruct (fromOutside c); [|now auto].
    apply Hre. now constructor.
  - split; [exact Hh|]. split.
    + apply (Clock.reachable_step _ (Clock.EvTick h now)). exact Ht.
    + cbn. now rewrite deps_tick.
Qed.

(** X6.  On the page, after any run of clicks, callbacks and clock
    firings: the clock interval is live exactly when the status is active
    with a non-zero start time; it is then the only interval and measures
    from the controller's current start time; in every other state no
    interval is left. *)
Theorem clock_runs_iff_active (es : list Page.Event) :
  let p := Page.run Page.init es in
  (forall t, status (home p) = active -> startTime (home p) = Some t ->
     t <> 0%Z ->
     exists h, Clock.intervals (tracker p) = [(h, t)] /\
               Clock.timerRef (tracker p) = Some h) /\
  (status (home p) <> active \/ startTime (home p) = Some 0%Z ->
     Clock.intervals (tracker p) = []) /\
  length (Clock.intervals (tracker p)) <= 1.
Proof.
  cbv zeta. destruct (page_components es) as (Hh & Ht & Hd).
  pose proof (ClockFacts.clockInvariant_reachable _ Ht) as Hinv.
  unfold Clock.clockInvariant in Hinv. rewrite Hd in Hinv.
  unfold Clock.propsOf in Hinv. cbn [fst snd] in Hinv.
  split; [|split].
  - intros t Ha Hs Hnz. rewrite Ha, Hs in Hinv. cbn in Hinv.
    destruct (Z.eqb_spec t 0); [contradiction|]. cbn in Hinv.
    destruct Hinv as (h & t' & [= <-] & Hi & Hr). now exists h.
  - intros [Hna|Hz].
    + destruct (status (home (Page.run Page.init es)));
        try exact Hinv. contradiction.
    + rewrite Hz in Hinv. cbn in Hinv. now rewrite andb_false_r in Hinv.
  - destruct (_ && _)%bool.
    + destruct Hinv as (h & t & _ & -> & _). cbn. lia.
    + rewrite Hinv. cbn. lia.
Qed.

Lemma clock_runs_iff_active_witness :
  let p := Page.run Page.init
             [ClickMain; Callback (EvSettle 0 true);
              Callback (EvConnected 0 50); ClockTick 1 150] in
  let q := Page.run p [Callback (EvError 0)] in
  (exists h, Clock.intervals (tracker p) = [(h, 50%Z)] /\
             Clock.timerRef (tracker p) = Some h) /\
  Clock.intervals (tracker q) = [].
Proof.
  cbv zeta. split.
  - apply (clock_runs_iff_active
             [ClickMain; Callback (EvSettle 0 true);
              Callback (EvConnected 0 50); ClockTick 1 150]);
      [reflexivity | reflexivity | discriminate].
  - apply (clock_runs_iff_active
             [ClickMain; Callback (EvSettle 0 true);
              Callback (EvConnected 0 50); ClockTick 1 150;
              Callback (EvError 0)]).
    left. discriminate.
Defined.

(** A quiet callback makes no call on any client and leaves [isMuted]. *)
Lemma quiet_step_calls s id e c :
  clients s !! id = Some c -> connected c = false ->
  quiet id e = true ->
  transportCalls (Controller.step s e) = transportCalls s /\
  isMuted (Controller.step s e) = isMuted s.
Proof.
  intros Hid Hoff Hq. destruct e; try discriminate; cbn in Hq |- *.
  - unfold onTransportStateChanged.
    destruct (clients s !! id0) as [c0|]; [|now auto].
    apply negb_true_iff in Hq. rewrite Hq. now auto.
  - apply Nat.eqb_eq in Hq. subst id0. unfold connectionPollTick.
    rewrite Hid. destruct (connectionPoll c); [|now auto]. cbv zeta.
    cbn [connected connectionHandled pollAttempts connectionPoll
         withAttempts withPoll].
    rewrite Hoff. cbn [andb].
    destruct (maxPollAttempts <=? S (pollAttempts c));
      (split; [|reflexivity]); unfold transportCalls; cbn;
      rewrite List.filter_app; cbn; apply app_nil_r.
Qed.

(** X7.  While the status is connecting and the transport of the pending
    client reports [connected = false], the page offers no way out: through
    any run of clicks on both buttons, clock firings, polls of that client
    and transport states other than "connected" and "ready", the status
    stays connecting, the start time and [isMuted] stay as they are, and no
    [connect], [disconnect] or [enableMic] is called. *)
Theorem no_way_out_of_connecting (es : list Page.Event) :
  forall (p : Page) (id : nat) (c : Client),
  status (home p) = connecting ->
  clients (home p) !! id = Some c -> connected c = false ->
  forallb (uneventful id) es = true ->
  let p' := Page.run p es in
  status (home p') = connecting /\
  startTime (home p') = startTime (home p) /\
  isMuted (home p') = isMuted (home p) /\
  transportCalls (home p') = transportCalls (home p).
Proof.
  induction es as [|e es IH]; intros p id c Hst Hid Hoff Hq; [now auto|].
  cbn [forallb] in Hq. apply andb_true_iff in Hq as [He Hes].
  cbv zeta. rewrite page_run_cons.
  assert (Hstep : status (home (Page.step p e)) = connecting /\
                  startTime (home (Page.step p e)) = startTime (home p) /\
                  isMuted (home (Page.step p e)) = isMuted (home p) /\
                  transportCalls (home (Page.step p e))
                  = transportCalls (home p) /\
                  exists c', clients (home (Page.step p e)) !! id = Some c' /\
                             connected c' = false).
  { destruct e as [| |ev|h now]; cbn [Page.step uneventful] in *.
    - unfold clickMain. rewrite Hst. cbn. now eauto 8.
    - unfold clickMute. rewrite Hst. cbn. now eauto 8.
    - destruct (fromOutside ev); [|now eauto 8]. cbn [home rerender].
      destruct (ControllerFacts.step_quiet (home p) id ev c Hid Hoff He)
        as (H1 & H2 & _ & Hc).
      destruct (quiet_step_calls (home p) id ev c Hid Hoff He) as [H3 H4].
      rewrite H1, H2, H3, H4. now auto.
    - cbn. now eauto 8. }
  destruct Hstep as (H1 & H2 & H3 & H4 & c' & Hid' & Hoff').
  destruct (IH (Page.step p e) id c' H1 Hid' Hoff' Hes) as (G1 & G2 & G3 & G4).
  rewrite G2, G3, G4, H2, H3, H4. now auto.
Qed.

Lemma no_way_out_of_connecting_witness :
  let p := Page.run Page.init [ClickMain; Callback (EvSettle 0 true)] in
  let es := [ClickMain; ClickMute; Callback (EvPoll 0 300); ClickMain;
             Callback (EvTransportStateChanged 0 "connecting" 400);
             ClockTick 1 500] in
  status (home (Page.run p es)) = connecting /\
  transportCalls (home (Page.run p es)) = transportCalls (home p).
Proof.
  cbv zeta.
  destruct (no_way_out_of_connecting
              [ClickMain; ClickMute; Callback (EvPoll 0 300); ClickMain;
               Callback (EvTransportStateChanged 0 "connecting" 400);
               ClockTick 1 500]
              (Page.run Page.init [ClickMain; Callback (EvSettle 0 true)])
              0 (mkClient false false 0 true)
              eq_refl eq_refl eq_refl eq_refl) as (H1 & _ & _ & H2).
  split; [exact H1 | exact H2].
Defined.

End PageFacts.

(* ===================================================================== *)
(** ** Facts about the displayed duration *)
(* ===================================================================== *)

Module DisplayFacts.

Import Display.

Local Open Scope Z_scope.












End DisplayFacts.

(* ===================================================================== *)
(** ** Facts about the address of the bot *)
(* ===================================================================== *)

Module BotUrlFacts.

Import BotUrl.

Local Open Scope string_scope.

Lemma allSlashes_slashes n : allSlashes (slashes n) = true.
Proof. induction n as [|n IH]; [reflexivity|]. cbn. exact IH. Qed.

Lemma allSlashes_is_slashes s :
  allSlashes s = true -> s = slashes (String.length s).
Proof.
  induction s as [|c r IH]; [reflexivity|]. cbn. intros H.
  apply andb_true_iff in H as [Hc Hr]. apply Ascii.eqb_eq in Hc. subst c.
  f_equal. now apply IH.
Qed.

Lemma allSlashes_app u w : allSlashes (u ++ w) = allSlashes u && allSlashes w.
Proof.
  induction u as [|c r IH]; [reflexivity|]. cbn. rewrite IH.
  now rewrite andb_assoc.
Qed.

(** A non-empty run of slashes ends with a slash. *)
Lemma allSlashes_ends c r :
  allSlashes (String c r) = true -> endsWithSlash (String c r) = true.
Proof.
  revert c. induction r as [|c' r IH]; intros c H; cbn in H |- *.
  - now rewrite andb_true_r in H.
  - apply andb_true_iff in H as [_ H]. now apply IH.
Qed.

Lemma strip_slashes n : stripTrailingSlashes (slashes n) = "".
Proof.
  destruct n as [|n]; [reflexivity|]. cbn. now rewrite allSlashes_slashes.
Qed.

Lemma strip_empty s : stripTrailingSlashes s = "" -> allSlashes s = true.
Proof.
  destruct s as [|c r]; [reflexivity|]. cbn.
  destruct (isSlash c && allSlashes r); [reflexivity | discriminate].
Qed.

Lemma strip_app u n :
  endsWithSlash u = false -> stripTrailingSlashes (u ++ slashes n) = u.
Proof.
  induction u as [|c r IH]; intros Hu.
  - apply strip_slashes.
  - cbn [append stripTrailingSlashes]. destruct r as [|c' r'].
    + cbn in Hu. rewrite Hu. cbn. now rewrite strip_slashes.
    + assert (Hr : endsWithSlash (String c' r') = false) by exact Hu.
      assert (Hall : allSlashes (String c' r' ++ slashes n) = false).
      { rewrite allSlashes_app.
        destruct (allSlashes (String c' r')) eqn:Ha; [|reflexivity].
        apply allSlashes_ends in Ha. congruence. }
      rewrite Hall, andb_false_r. f_equal. now apply IH.
Qed.

Lemma strip_decompose s :
  exists n, s = stripTrailingSlashes s ++ slashes n.
Proof.
  induction s as [|c r [n IH]]; [now exists 0|].
  cbn [stripTrailingSlashes].
  destruct (isSlash c && allSlashes r) eqn:Hc.
  - exists (String.length (String c r)). apply allSlashes_is_slashes. exact Hc.
  - exists n. cbn. now rewrite <- IH.
Qed.

Lemma strip_no_trailing s : endsWithSlash (stripTrailingSlashes s) = false.
Proof.
  induction s as [|c r IH]; [reflexivity|]. cbn [stripTrailingSlashes].
  destruct (isSlash c && allSlashes r) eqn:Hc; [reflexivity|].
  destruct (stripTrailingSlashes r) as [|c' t] eqn:Ht.
  - apply strip_empty in Ht. rewrite Ht, andb_true_r in Hc. cbn. exact Hc.
  - exact IH.
Qed.

(** X10.  [replace(/\/+$/, '')] removes exactly the trailing slashes: the
    result never ends with a slash, the input is the result followed by
    slashes only, and any number of slashes appended to a string that does
    not end with one is removed again, so the operation is idempotent. *)
Theorem stripTrailingSlashes_spec (s : string) :
  endsWithSlash (stripTrailingSlashes s) = false /\
  (exists n, s = stripTrailingSlashes s ++ slashes n) /\
  (forall n, endsWithSlash s = false ->
             stripTrailingSlashes (s ++ slashes n) = s) /\
  stripTrailingSlashes (stripTrailingSlashes s) = stripTrailingSlashes s.
Proof.
  split; [apply strip_no_trailing|]. split; [apply strip_decompose|]. split.
  - intros n H. now apply strip_app.
  - pose proof (strip_app (stripTrailingSlashes s) 0 (strip_no_trailing s))
      as H.
    cbn [slashes] in H.
    assert (Hnil : forall u, u ++ "" = u)
      by (induction u as [|c u IH]; cbn; congruence).
    now rewrite Hnil in H.
Qed.

Lemma stripTrailingSlashes_spec_witness :
  stripTrailingSlashes ("http://bot.example:7860" ++ slashes 3)
  = "http://bot.example:7860".
Proof.
  destruct (stripTrailingSlashes_spec "http://bot.example:7860")
    as (_ & _ & H & _).
  apply (H 3). reflexivity.
Defined.

(** X11.  The endpoint the client connects to.  With the variable unset or
    empty it is the offer path on the local default.  With a value that is
    some address not ending in a slash, followed by any number of slashes,
    it is that address followed by "/api/offer", with one slash between.
    With a value made of slashes only the base is empty and the endpoint
    is the bare path "/api/offer". *)
Theorem endpoint_cases :
  endpoint None = "http://localhost:7860/api/offer" /\
  endpoint (Some "") = "http://localhost:7860/api/offer" /\
  (forall u n, u <> "" -> endsWithSlash u = false ->
     endpoint (Some (u ++ slashes n)) = u ++ "/api/offer") /\
  (forall n, endpoint (Some (slashes (S n))) = "/api/offer").
Proof.
  split; [reflexivity|]. split; [reflexivity|]. split.
  - intros u n Hu Hend. unfold endpoint, botUrl, rawBotUrl.
    destruct u as [|c r]; [contradiction|]. cbn [append].
    change (String c (r ++ slashes n)) with (String c r ++ slashes n).
    now rewrite strip_app.
  - intros n. unfold endpoint, botUrl. cbn [rawBotUrl slashes].
    change (String "/" (slashes n)) with (slashes (S n)).
    now rewrite strip_slashes.
Qed.

Lemma endpoint_cases_witness :
  endpoint (Some "http://bot.example:7860//")
  = "http://bot.example:7860/api/offer".
Proof.
  destruct endpoint_cases as (_ & _ & H & _).
  apply (H "http://bot.example:7860" 2); [discriminate | reflexivity].
Defined.

End BotUrlFacts.

(* ===================================================================== *)
(** ** The clock never leaks an interval *)
(* ===================================================================== *)

Module IntervalFacts.

Import Clock.

(** X12.  Whatever props [CostTracker] is rendered with and whenever its
    timers fire, at most one interval is live; a live interval is the one
    whose handle [timerRef] holds; and the firing of any other handle
    changes nothing. *)
Theorem one_live_interval (es : list Event) :
  let ct := run mount es in
  length (intervals ct) <= 1 /\
  (forall h t, closedOver h (intervals ct) = Some t ->
     timerRef ct = Some h /\ intervals ct = [(h, t)]) /\
  (forall h now, timerRef ct <> Some h -> tick h now ct = ct).
Proof.
  cbv zeta.
  pose proof (ClockFacts.clockInvariant_reachable _
                (ClockFacts.clock_reachable_run mount es reachable_mount))
    as Hinv.
  unfold clockInvariant in Hinv.
  assert (Hshape : intervals (run mount es) = [] \/
                   exists h t, intervals (run mount es) = [(h, t)] /\
                               timerRef (run mount es) = Some h).
  { destruct (deps (run mount es)) as [p|]; [|now left].
    destruct (fst p && truthy (snd p))%bool; [|now left].
    destruct Hinv as (h & t & _ & Hi & Hr). right. now exists h, t. }
  destruct Hshape as [Hi|(h0 & t0 & Hi & Hr)]; rewrite Hi.
  - split; [cbn; lia|]. split; [discriminate|].
    intros h now _. unfold tick. now rewrite Hi.
  - split; [cbn; lia|]. split.
    + intros h t. cbn. destruct (Nat.eqb_spec h0 h) as [<-|]; [|discriminate].
      intros [= <-]. now split.
    + intros h now Hne. unfold tick. rewrite Hi. cbn.
      destruct (Nat.eqb_spec h0 h) as [<-|]; [|reflexivity].
      congruence.
Qed.

Lemma one_live_interval_witness :
  let ct := run mount [EvRender (true, Some 50%Z);
                       EvRender (true, Some 3000%Z)] in
  tick 1 3100 ct = ct.
Proof.
  cbv zeta.
  apply (one_live_interval [EvRender (true, Some 50%Z);
                            EvRender (true, Some 3000%Z)]).
  discriminate.
Defined.

End IntervalFacts.
